(** * A tool-calling conversation loop: the library entry points
      [processStream] and [streamQuery] and the [ToolScheduler] class.

    The development embeds the TypeScript sources

      - packages/cli/src/tool-scheduler.ts  (class ToolScheduler)
      - the library module that defines BotMessage, processStream and
        streamQuery

    as Rocq functions in a state-and-exception monad, and proves the
    properties that the specification states about them. *)

From Stdlib Require Import ZArith List Ascii String DecimalString Lia.
From stdpp Require Import base gmap strings list.

Local Open Scope Z_scope.
#[local] Set Warnings "-register-all".
#[local] Arguments String.append !_ _ / : simpl nomatch.

(* ===================================================================== *)
(** * JavaScript data *)
(* ===================================================================== *)

(** Strings are sequences of code units; the embedding covers the code
    units below 256, one [ascii] each. *)

(** Values of dynamic type, as they occur in [request.args] and in event
    payloads.  Numbers are restricted to integers. *)
Inductive JsVal : Type :=
| JUndefined
| JNull
| JBool (b : bool)
| JNum (n : Z)
| JStr (s : string)
| JArr (items : list JsVal)
| JObj (fields : list (string * JsVal)).

(** [if (v)]: the falsy values are undefined, null, false, 0 and the
    empty string. *)
Definition js_truthy (v : JsVal) : bool :=
  match v with
  | JUndefined | JNull => false
  | JBool b => b
  | JNum n => negb (n =? 0)
  | JStr s => negb (String.eqb s "")
  | JArr _ | JObj _ => true
  end.

(** [o[k]] on an object used as a dictionary: a missing key reads as
    undefined. *)
Definition js_get (o : gmap string JsVal) (k : string) : JsVal :=
  default JUndefined (o !! k).

(** [String(v)], which is also the conversion of [`${v}`]: an array
    joins the conversions of its elements with commas, [undefined] and
    [null] among them giving the empty string; a plain object gives
    [[object Object]]. *)
Fixpoint js_String (v : JsVal) : string :=
  match v with
  | JUndefined => "undefined"
  | JNull => "null"
  | JBool true => "true"
  | JBool false => "false"
  | JNum n => NilZero.string_of_int (Z.to_int n)
  | JStr s => s
  | JArr items =>
      String.concat ","
        (map (fun item => match item with
                          | JUndefined | JNull => ""
                          | _ => js_String item
                          end) items)
  | JObj _ => "[object Object]"
  end.

(** [s || d] on strings. *)
Definition js_or (s d : string) : string :=
  if String.eqb s "" then d else s.

(** [`${n}`] for an integer [n]. *)
Definition string_of_Z (n : Z) : string :=
  NilZero.string_of_int (Z.to_int n).

(** White space in the sense of [String.prototype.trim], among the code
    units below 256: TAB, LF, VT, FF, CR, SP and NBSP. *)
Definition is_white_space (c : ascii) : bool :=
  match c with
  | "009" | "010" | "011" | "012" | "013" | " " | "160" => true
  | _ => false
  end%char.

Fixpoint trimStart (s : string) : string :=
  match s with
  | EmptyString => EmptyString
  | String c rest => if is_white_space c then trimStart rest else s
  end.

Definition trimEnd (s : string) : string :=
  String.rev (trimStart (String.rev s)).

Definition trim (s : string) : string := trimEnd (trimStart s).

(** The line feed, ['\n']. *)
Definition newline : string := String "010" "".

(** [a.join(sep)] on an array of strings. *)
Definition join (sep : string) (a : list string) : string :=
  String.concat sep a.

(** The conversion of a plain object to a string, as a template literal
    or [toString()] performs it (Object.prototype.toString). *)
Definition object_toString : string := "[object Object]".

(** [s] starts with [p]; [s] contains [p]. *)
Definition starts_with (p s : string) : Prop := exists rest, s = p +:+ rest.
Definition contains (p s : string) : Prop :=
  exists before rest, s = before +:+ p +:+ rest.

(** [s.includes(p)]: the decision procedure for [contains]. *)
Fixpoint includes (p s : string) : bool :=
  String.prefix p s ||
  match s with
  | EmptyString => false
  | String _ rest => includes p rest
  end.

(** An [Error] object. *)
Record JsError : Type := { message : string }.

(** What a [throw] throws and a rejected promise rejects with: an
    [Error] object, or any other value, [undefined] and [null]
    included. *)
Inductive Thrown : Type :=
| ThrownError (e : JsError)
| ThrownValue (v : JsVal).

Coercion ThrownError : JsError >-> Thrown.

(** The [TypeError] of reading the property [message] of [undefined] or
    of [null], with the message that Node gives it. *)
Definition cannot_read_message (value : string) : JsError :=
  {| message := "Cannot read properties of " +:+ value +:+ " (reading 'message')" |}.

(** [`${error.message}`] for a caught value [error]: the message of an
    [Error]; the conversion of the field [message] of another object, or
    of [undefined] when the value has no such property; reading the
    property of [undefined] or of [null] throws a [TypeError]. *)
Definition message_of (error : Thrown) : JsError + string :=
  match error with
  | ThrownError e => inr (message e)
  | ThrownValue JUndefined => inl (cannot_read_message "undefined")
  | ThrownValue JNull => inl (cannot_read_message "null")
  | ThrownValue (JObj fields) =>
      inr (js_String
             (match List.find (fun field => String.eqb (fst field) "message") fields with
              | Some field => snd field
              | None => JUndefined
              end))
  | ThrownValue _ => inr "undefined"
  end.

(** [err instanceof Error ? err.message : String(err)] *)
Definition message_or_String (err : Thrown) : string :=
  match err with
  | ThrownError e => message e
  | ThrownValue v => js_String v
  end.

(* ===================================================================== *)
(** * Types of the core and genai packages that the sources use *)
(* ===================================================================== *)

(** [Part] of the genai package: of its many shapes the library builds
    only [functionResponse] parts. *)
Record FunctionResponseBody : Type :=
  { response_name : string; response_content : string }.

Record FunctionResponse : Type :=
  { functionResponse_name : string; response : FunctionResponseBody }.

Inductive Part : Type :=
| PartText (text : string)
| PartInlineData (mimeType data : string)
| PartFunctionResponse (functionResponse : FunctionResponse).

(** [PartUnion = Part | string] and [PartListUnion = PartUnion[] | PartUnion]. *)
Inductive PartUnion : Type :=
| PUString (s : string)
| PUPart (p : Part).

Inductive PartListUnion : Type :=
| PLOne (p : PartUnion)
| PLMany (ps : list PartUnion).

Definition PartUnion_toString (p : PartUnion) : string :=
  match p with
  | PUString s => s
  | PUPart _ => object_toString
  end.

(** [c.toString()]: an array converts as [join(',')]. *)
Definition PartListUnion_toString (c : PartListUnion) : string :=
  match c with
  | PLOne p => PartUnion_toString p
  | PLMany ps => join "," (map PartUnion_toString ps)
  end.

(** [Array.isArray(c)] and, on an array, [c.join(sep)]. *)
Definition isArray (c : option PartListUnion) : option (list PartUnion) :=
  match c with
  | Some (PLMany ps) => Some ps
  | _ => None
  end.

(** [c?.toString() || ''] *)
Definition toString_or_empty (c : option PartListUnion) : string :=
  match c with
  | None => ""
  | Some c => js_or (PartListUnion_toString c) ""
  end.

(** Modelled from the spec: the declaration of [ToolCallRequestInfo] is
    in the core package; a request has an identifier, the name of an
    operation, and a mapping from parameter names to values. *)
Record ToolCallRequestInfo : Type :=
  { callId : string; name : string; args : gmap string JsVal }.

Record ThoughtSummary : Type := { subject : string; description : string }.

(** [FinishReason] is a string enumeration of the genai package. *)
Definition FinishReason : Type := string.

(** The outcome of a tool invocation ([ToolResult] of the core package):
    only [llmContent] is read; [None] stands for an absent payload. *)
Record ToolOutput : Type := { llmContent : option PartListUnion }.

(** Modelled from the spec: the structured outcome of
    [ShellExecutionService.execute], declared in the core package, is
    { output: text, rawOutput: bytes, error: optional, aborted: bool,
    signal: optional, exitCode: integer }. *)
Record ShellExecutionResult : Type :=
  { output : string;
    rawOutput : list Byte.byte;
    error : option JsError;
    aborted : bool;
    signal : option string;
    exitCode : Z }.

(** The events of a response stream.  [EvOther] stands for an event whose
    tag is none of the eleven that the type [ServerGeminiStreamEvent]
    lists: the [default] branch of [processStream] is there for it. *)
Inductive ServerGeminiStreamEvent : Type :=
| EvThought (value : ThoughtSummary)
| EvContent (value : string)
| EvToolCallRequest (value : ToolCallRequestInfo)
| EvError (value : JsVal)
| EvFinished (value : FinishReason)
| EvUserCancelled
| EvChatCompressed (value : JsVal)
| EvLoopDetected
| EvToolCallConfirmation (value : JsVal)
| EvToolCallResponse (value : JsVal)
| EvMaxSessionTurns
| EvOther (type : string) (value : JsVal).

Definition known_types : list string :=
  [ "thought"; "content"; "tool_call_request"; "error"; "finished";
    "user_cancelled"; "chat_compressed"; "loop_detected";
    "tool_call_confirmation"; "tool_call_response"; "max_session_turns" ].

Definition event_type (ev : ServerGeminiStreamEvent) : string :=
  match ev with
  | EvThought _ => "thought"
  | EvContent _ => "content"
  | EvToolCallRequest _ => "tool_call_request"
  | EvError _ => "error"
  | EvFinished _ => "finished"
  | EvUserCancelled => "user_cancelled"
  | EvChatCompressed _ => "chat_compressed"
  | EvLoopDetected => "loop_detected"
  | EvToolCallConfirmation _ => "tool_call_confirmation"
  | EvToolCallResponse _ => "tool_call_response"
  | EvMaxSessionTurns => "max_session_turns"
  | EvOther type _ => type
  end.

(** An async iterable of events: it yields, ends, or rejects.  The
    events are those that the model's answer delivers; what producing
    them does to the outside world is accounted for where the stream is
    asked for. *)
Inductive Stream : Type :=
| SDone
| SYield (event : ServerGeminiStreamEvent) (rest : Stream)
| SThrow (e : Thrown).

Fixpoint stream_of_list (evs : list ServerGeminiStreamEvent) : Stream :=
  match evs with
  | [] => SDone
  | ev :: rest => SYield ev (stream_of_list rest)
  end.

(* ===================================================================== *)
(** * tool-scheduler.ts and the library module: exported types *)
(* ===================================================================== *)

(** [interface ToolResult { callId: string; result: string }] *)
Record ToolResult : Type := { res_callId : string; result : string }.

Inductive BotMessage : Type :=
| MsgContent (content : string)
| MsgThought (thought : ThoughtSummary)
| MsgToolCallRequest (request : ToolCallRequestInfo)
| MsgToolResult (request : ToolCallRequestInfo) (result : ToolResult)
| MsgError (error : string)
| MsgInfo (message : string)
| MsgFinished (reason : FinishReason) (prompt_id : string).

(* ===================================================================== *)
(** * Effects: collaborators, state and exceptions *)
(* ===================================================================== *)

(** The result of a computation that may throw. *)
Inductive Res (A : Type) : Type :=
| Ok (a : A)
| Throw (e : Thrown).
Arguments Ok {A} a.
Arguments Throw {A} e.

(** The invocations of collaborators, in the order they happen (what a
    mock of the test-suite records). *)
Inductive Call : Type :=
| CallGetToolRegistry
| CallGetTool (tool : string)
| CallBuild (tool : string) (params : gmap string JsVal)
| CallExecute (tool : string)
| CallGetTargetDir
| CallShellExecute (command : JsVal) (cwd : string)
| CallGetSessionId
| CallRandom
| CallSendMessageStream (prompt : PartListUnion) (prompt_id : string).

Section Library.

(** The state of everything outside the library: file system, processes,
    the model service. *)
Context {W : Type}.

(** A collaborator's method: it reads and changes the outside world and
    returns or throws (for a promise: resolves or rejects). *)
Definition Effect (A : Type) : Type := W -> Res A * W.

(** Modelled from the spec: the tool-capability provider, declared in
    the core package, resolves a name to nothing or to an object with
    [build(args) -> invocation] (which may raise) and
    [invocation.execute(cancellationToken) -> outcome]. *)
Record AnyToolInvocation : Type :=
  { invocation_execute : Effect ToolOutput }.

Record Tool : Type :=
  { build : gmap string JsVal -> Effect AnyToolInvocation }.

Record ToolRegistry : Type :=
  { getTool : string -> Effect (option Tool) }.

Record GeminiClient : Type :=
  { sendMessageStream : PartListUnion -> string -> Effect Stream }.

Record Config : Type :=
  { getToolRegistry : Effect ToolRegistry;
    getTargetDir : Effect string;
    getSessionId : Effect string;
    getGeminiClient : option GeminiClient }.

(** The functions that the sources import or call and whose code is not
    part of them: [isBinary] and [getErrorMessage] of the core package,
    [ShellExecutionService.execute] (with the [await] of its [result]),
    [JSON.stringify] and [Math.random] (with its conversion to a string). *)
Variable isBinary : list Byte.byte -> bool.
Variable getErrorMessage : Thrown -> string.
Variable JSON_stringify : JsVal -> string.
Variable ShellExecutionService_execute : JsVal -> string -> Effect ShellExecutionResult.
Variable Math_random : Effect string.

(** The callback of the test-suite, [(msg) => messages.push(msg)]: it
    leaves the outside world alone and returns. *)
Definition recording : BotMessage -> Effect unit := fun _ w => (Ok tt, w).

(** The function that the caller of [streamQuery] passes as [callback]:
    it may do anything to the outside world, and it may throw. *)
Variable bot : BotMessage -> Effect unit.

(** The state that a run threads: the outside world, the log of the
    calls made to collaborators, and the messages handed to the
    callback, oldest first. *)
Record St : Type :=
  { world : W; calls : list Call; sent : list BotMessage }.

Definition M (A : Type) : Type := St -> Res A * St.

Definition ret {A} (a : A) : M A := fun s => (Ok a, s).

Definition throw {A} (e : Thrown) : M A := fun s => (Throw e, s).

Definition bind {A B} (m : M A) (k : A -> M B) : M B :=
  fun s => match m s with
           | (Ok a, s') => k a s'
           | (Throw e, s') => (Throw e, s')
           end.

(** [try { m } catch (e) { h e }] *)
Definition try_catch {A} (m : M A) (h : Thrown -> M A) : M A :=
  fun s => match m s with
           | (Ok a, s') => (Ok a, s')
           | (Throw e, s') => h e s'
           end.

(** A call to a collaborator: logged, then run on the outside world. *)
Definition call {A} (c : Call) (f : Effect A) : M A :=
  fun s => let (r, w) := f (world s) in
           (r, {| world := w; calls := calls s ++ [c]; sent := sent s |}).

(** [callback(msg)]: the message is noted as handed over, then the
    caller's function runs on the outside world, and what it throws is
    thrown by the call. *)
Definition callback (msg : BotMessage) : M unit :=
  fun s => let (r, w) := bot msg (world s) in
           (r, {| world := w; calls := calls s; sent := sent s ++ [msg] |}).

Notation "'do' x <- m ; k" := (bind m (fun x => k))
  (at level 10, x name, m at level 100, k at level 200, only parsing).

(* ===================================================================== *)
(** * class ToolScheduler *)
(* ===================================================================== *)

Variable config : Config.

(** The four tools that go through the registry share one shape:
    look the tool up, build the invocation, execute it, convert the
    content; [normalize] is the conversion and [what] the words of the
    error text. *)
Definition registry_tool (tool_name what : string)
    (normalize : option PartListUnion -> string)
    (args : gmap string JsVal) : M string :=
  do toolRegistry <- call CallGetToolRegistry (getToolRegistry config) ;
  do tool <- call (CallGetTool tool_name) (getTool toolRegistry tool_name) ;
  match tool with
  | None => ret ("[ERROR] " +:+ tool_name +:+ " tool not found.")
  | Some tool =>
      try_catch
        (do invocation <- call (CallBuild tool_name args) (build tool args) ;
         do result <- call (CallExecute tool_name) (invocation_execute invocation) ;
         ret (normalize (llmContent result)))
        (fun error =>
           ret ("[ERROR] Error " +:+ what +:+ ": " +:+ getErrorMessage error))
  end.

Definition readFile : gmap string JsVal -> M string :=
  registry_tool "read_file" "reading file" toString_or_empty.

Definition replace : gmap string JsVal -> M string :=
  registry_tool "replace" "replacing content" toString_or_empty.

Definition writeFile : gmap string JsVal -> M string :=
  registry_tool "write_file" "writing file" toString_or_empty.

Definition readManyFiles_normalize (c : option PartListUnion) : string :=
  match isArray c with
  | Some ps => join newline (map PartUnion_toString ps)
  | None => toString_or_empty c
  end.

Definition readManyFiles : gmap string JsVal -> M string :=
  registry_tool "read_many_files" "reading files" readManyFiles_normalize.

(** [if (executionResult.signal)]: a signal that is present and not the
    empty string. *)
Definition signal_truthy (sig : option string) : option string :=
  match sig with
  | Some sg => if String.eqb sg "" then None else Some sg
  | None => None
  end.

(** The part of [runShellCommand] that follows the [await]: the chain of
    [if]s over the execution result, in source order. *)
Definition shell_result_text (executionResult : ShellExecutionResult) : string :=
  match error executionResult with
  | Some err =>
      "[ERROR] " +:+ message err +:+ newline +:+ output executionResult
  | None =>
  if aborted executionResult then
    "[CANCELLED] Command was cancelled." +:+ newline +:+ output executionResult
  else
  match signal_truthy (signal executionResult) with
  | Some sg =>
      "[ERROR] Command terminated by signal: " +:+ sg +:+ "."
        +:+ newline +:+ output executionResult
  | None =>
  if negb (exitCode executionResult =? 0) then
    "[ERROR] Command exited with code " +:+ string_of_Z (exitCode executionResult)
      +:+ "." +:+ newline +:+ output executionResult
  else
  if isBinary (rawOutput executionResult) then
    "[Command produced binary output, which is not shown.]"
  else
    js_or (trim (output executionResult)) "(Command produced no output)"
  end
  end.

Definition runShellCommand (command : JsVal) : M string :=
  if negb (js_truthy command) then
    ret "[ERROR] No command provided to run_shell_command."
  else
    do targetDir <- call CallGetTargetDir (getTargetDir config) ;
    do executionResult <-
      call (CallShellExecute command targetDir)
           (ShellExecutionService_execute command targetDir) ;
    ret (shell_result_text executionResult).

(** The [switch (request.name)] of [execute]. *)
Definition execute_switch (request : ToolCallRequestInfo) : M string :=
  if String.eqb (name request) "run_shell_command" then
    runShellCommand (js_get (args request) "command")
  else if String.eqb (name request) "read_many_files" then
    readManyFiles (args request)
  else if String.eqb (name request) "read_file" then
    readFile (args request)
  else if String.eqb (name request) "write_file" then
    writeFile (args request)
  else if String.eqb (name request) "replace" then
    replace (args request)
  else
    ret ("[ERROR] Tool '" +:+ name request +:+ "' is not implemented.").

(** The body of the [for] loop of [execute]: [try]/[catch] around the
    switch, then [results.push]. *)
Definition execute_one (request : ToolCallRequestInfo) : M ToolResult :=
  do resultText <-
    try_catch (execute_switch request)
      (fun e =>
         (* [const error = e as Error]: the cast checks nothing *)
         match message_of e with
         | inr error_message =>
             ret ("[ERROR] Tool '" +:+ name request +:+ "' failed: " +:+ error_message)
         | inl type_error => throw type_error
         end) ;
  ret {| res_callId := callId request; result := resultText |}.

Fixpoint execute_from (requests : list ToolCallRequestInfo)
    (results : list ToolResult) : M (list ToolResult) :=
  match requests with
  | [] => ret results
  | request :: rest =>
      do r <- execute_one request ;
      execute_from rest (results ++ [r])
  end.

Definition execute (requests : list ToolCallRequestInfo) : M (list ToolResult) :=
  execute_from requests [].

(* ===================================================================== *)
(** * processStream and streamQuery *)
(* ===================================================================== *)

(** The [for await] loop of [processStream]; [toolCallRequests] is the
    array that the loop fills. *)
Fixpoint processStream_from (stream : Stream) (prompt_id : string)
    (toolCallRequests : list ToolCallRequestInfo) : M (list ToolCallRequestInfo) :=
  match stream with
  | SDone => ret toolCallRequests
  | SThrow e => throw e
  | SYield event rest =>
      match event with
      | EvThought value =>
          do _ <- callback (MsgThought value) ;
          processStream_from rest prompt_id toolCallRequests
      | EvContent value =>
          do _ <- callback (MsgContent value) ;
          processStream_from rest prompt_id toolCallRequests
      | EvToolCallRequest value =>
          do _ <- callback (MsgToolCallRequest value) ;
          processStream_from rest prompt_id (toolCallRequests ++ [value])
      | EvError value =>
          do _ <- callback (MsgError (JSON_stringify value)) ;
          processStream_from rest prompt_id toolCallRequests
      | EvFinished value =>
          do _ <- callback (MsgFinished value prompt_id) ;
          processStream_from rest prompt_id toolCallRequests
      | EvUserCancelled =>
          do _ <- callback (MsgInfo "Request cancelled by user.") ;
          processStream_from rest prompt_id toolCallRequests
      | EvChatCompressed _ =>
          do _ <- callback (MsgInfo "Chat history was compressed.") ;
          processStream_from rest prompt_id toolCallRequests
      | EvLoopDetected =>
          do _ <- callback (MsgError "Loop detected. Halting execution.") ;
          processStream_from rest prompt_id toolCallRequests
      | EvToolCallConfirmation _
      | EvToolCallResponse _
      | EvMaxSessionTurns =>
          processStream_from rest prompt_id toolCallRequests
      | EvOther _ _ =>
          (* [`Unknown event type: ${unreachable}`] with [unreachable]
             bound to the event, an object *)
          do _ <- callback (MsgError ("Unknown event type: " +:+ object_toString)) ;
          processStream_from rest prompt_id toolCallRequests
      end
  end.

Definition processStream (stream : Stream) (prompt_id : string)
  : M (list ToolCallRequestInfo) :=
  processStream_from stream prompt_id [].

(** [toolCallRequests.find((req) => req.callId === id)] *)
Definition find_request (toolCallRequests : list ToolCallRequestInfo)
    (id : string) : option ToolCallRequestInfo :=
  List.find (fun req => String.eqb (callId req) id) toolCallRequests.

(** The [for] loop that informs the bot about the tool results. *)
Fixpoint inform (toolCallRequests : list ToolCallRequestInfo)
    (toolResults : list ToolResult) : M unit :=
  match toolResults with
  | [] => ret tt
  | result :: rest =>
      match find_request toolCallRequests (res_callId result) with
      | Some originalRequest =>
          do _ <- callback (MsgToolResult originalRequest result) ;
          inform toolCallRequests rest
      | None => inform toolCallRequests rest
      end
  end.

(** [originalRequest?.name || ''] *)
Definition original_name (toolCallRequests : list ToolCallRequestInfo)
    (id : string) : string :=
  match find_request toolCallRequests id with
  | Some originalRequest => js_or (name originalRequest) ""
  | None => ""
  end.

(** The function mapped over [toolResults] to build the next prompt. *)
Definition toolResponsePart (toolCallRequests : list ToolCallRequestInfo)
    (result0 : ToolResult) : PartUnion :=
  PUPart (PartFunctionResponse
    {| functionResponse_name := original_name toolCallRequests (res_callId result0);
       response :=
         {| response_name := original_name toolCallRequests (res_callId result0);
            response_content := result result0 |} |}).

Definition toolResponseParts (toolCallRequests : list ToolCallRequestInfo)
    (toolResults : list ToolResult) : PartListUnion :=
  PLMany (map (toolResponsePart toolCallRequests) toolResults).

(** How a call of [streamQuery] stands after some passes of its loop. *)
Inductive Outcome : Type :=
| Returns
| Throws (e : Thrown)
| Running.

(** How one pass through the body of [while (true)] ends: at [break], or
    at the end of the body with the next [currentPrompt]. *)
Inductive Pass : Type :=
| Break
| Next (currentPrompt : PartListUnion).

Section Loop.

(** [toolScheduler.execute]; the test-suite replaces it by a mock. *)
Variable toolScheduler_execute : list ToolCallRequestInfo -> M (list ToolResult).
Variable geminiClient : GeminiClient.

Definition loop_body (currentPrompt : PartListUnion) : M Pass :=
  do sessionId <- call CallGetSessionId (getSessionId config) ;
  do random <- call CallRandom Math_random ;
  let prompt_id := sessionId +:+ "########" +:+ random in
  do stream <-
    call (CallSendMessageStream currentPrompt prompt_id)
         (sendMessageStream geminiClient currentPrompt prompt_id) ;
  do toolCallRequests <- processStream stream prompt_id ;
  match toolCallRequests with
  | [] => ret Break
  | _ :: _ =>
      do toolResults <- toolScheduler_execute toolCallRequests ;
      do _ <- inform toolCallRequests toolResults ;
      ret (Next (toolResponseParts toolCallRequests toolResults))
  end.

(** [while (true)], followed for at most [fuel] passes: the loop is left
    at [break] or by an exception, or it is still [Running] when the
    passes are used up. *)
Fixpoint while_true (fuel : nat) (currentPrompt : PartListUnion) (s : St)
  : Outcome * St :=
  match fuel with
  | O => (Running, s)
  | S fuel' =>
      match loop_body currentPrompt s with
      | (Ok Break, s') => (Returns, s')
      | (Ok (Next currentPrompt'), s') => while_true fuel' currentPrompt' s'
      | (Throw e, s') => (Throws e, s')
      end
  end.

End Loop.

(** [streamQuery] with a given scheduler: the guard on the client, then
    the loop inside [try]/[catch]. *)
Definition streamQuery_with
    (toolScheduler_execute : list ToolCallRequestInfo -> M (list ToolResult))
    (fuel : nat) (prompt : PartListUnion) (s : St) : Outcome * St :=
  match getGeminiClient config with
  | None => (Throws {| message := "Gemini client is not initialized." |}, s)
  | Some geminiClient =>
      match while_true toolScheduler_execute geminiClient fuel prompt s with
      | (Throws error, s') =>
          (* the [catch]: what the callback throws here leaves the
             function *)
          match callback (MsgError (getErrorMessage error)) s' with
          | (Ok _, s'') => (Returns, s'')
          | (Throw e, s'') => (Throws e, s'')
          end
      | (outcome, s') => (outcome, s')
      end
  end.

(** [streamQuery]: the scheduler is [new ToolScheduler(config)]. *)
Definition streamQuery : nat -> PartListUnion -> St -> Outcome * St :=
  streamQuery_with execute.

End Library.

(* ===================================================================== *)
(** * A sample environment *)
(* ===================================================================== *)

(** Concrete collaborators, in the manner of the mocks of the two test
    files: the outside world is the number of streams that the model has
    been asked for so far. *)
Module Sample.

Definition isBinary (raw : list Byte.byte) : bool :=
  existsb (Byte.eqb Byte.x00) raw.

Definition getErrorMessage (error : Thrown) : string := message_or_String error.

Definition JSON_stringify (v : JsVal) : string :=
  match v with
  | JNull => "null"
  | JBool true => "true"
  | JBool false => "false"
  | JNum n => string_of_Z n
  | _ => "{}"
  end.

Definition hello : ShellExecutionResult :=
  {| output := "hello world" +:+ newline;
     rawOutput := String.list_byte_of_string ("hello world" +:+ newline);
     error := None; aborted := false; signal := None; exitCode := 0 |}.

Definition ShellExecutionService_execute (command : JsVal) (cwd : string)
  : @Effect nat ShellExecutionResult :=
  fun w => (Ok hello, w).

Definition Math_random : @Effect nat string := fun w => (Ok "0.5", w).

(** A tool whose invocation resolves with the given content. *)
Definition tool_returning (c : option PartListUnion) : @Tool nat :=
  {| build := fun _ w =>
       (Ok {| invocation_execute := fun w' => (Ok {| llmContent := c |}, w') |}, w) |}.

(** A tool whose [build] throws. *)
Definition tool_failing (msg : string) : @Tool nat :=
  {| build := fun _ w => (Throw {| message := msg |}, w) |}.

Definition two_parts : option PartListUnion :=
  Some (PLMany [PUString "a"; PUString "b"]).

(** A registry with [read_file] and [read_many_files] (both resolve with
    a sequence of two parts) and a [replace] whose [build] throws; there
    is no [write_file]. *)
Definition registry : @ToolRegistry nat :=
  {| getTool := fun tool w =>
       (Ok (if String.eqb tool "read_file" then Some (tool_returning two_parts)
            else if String.eqb tool "read_many_files" then Some (tool_returning two_parts)
            else if String.eqb tool "replace" then Some (tool_failing "bad arguments")
            else None), w) |}.

Definition ls_request : ToolCallRequestInfo :=
  {| callId := "123"; name := "run_shell_command";
     args := {[ "command" := JStr "ls" ]} |}.

(** The model asks for one tool call in its first stream and answers in
    its second. *)
Definition client : @GeminiClient nat :=
  {| sendMessageStream := fun _ _ w =>
       (Ok (match w with
            | O => stream_of_list [EvToolCallRequest ls_request; EvFinished "STOP"]
            | _ => stream_of_list [EvContent "final answer"]
            end), S w) |}.

Definition config : @Config nat :=
  {| getToolRegistry := fun w => (Ok registry, w);
     getTargetDir := fun w => (Ok "/tmp", w);
     getSessionId := fun w => (Ok "session-id", w);
     getGeminiClient := Some client |}.

(** The same configuration without a client. *)
Definition config_without_client : @Config nat :=
  {| getToolRegistry := fun w => (Ok registry, w);
     getTargetDir := fun w => (Ok "/tmp", w);
     getSessionId := fun w => (Ok "session-id", w);
     getGeminiClient := None |}.

(** A model whose connection fails. *)
Definition config_unreachable : @Config nat :=
  {| getToolRegistry := fun w => (Ok registry, w);
     getTargetDir := fun w => (Ok "/tmp", w);
     getSessionId := fun w => (Ok "session-id", w);
     getGeminiClient :=
       Some {| sendMessageStream := fun _ _ w =>
                 (Throw {| message := "connection refused" |}, w) |} |}.

(** The mocked scheduler of the library test. *)
Definition mock_execute (requests : list ToolCallRequestInfo)
  : @M nat (list ToolResult) :=
  ret [ {| res_callId := "123"; result := "tool result" |} ].

(** A scheduler that returns a result nobody asked for, then the
    result for request "123". *)
Definition stray_execute (requests : list ToolCallRequestInfo)
  : @M nat (list ToolResult) :=
  ret [ {| res_callId := "999"; result := "stray" |};
        {| res_callId := "123"; result := "tool result" |} ].

Definition read_file_request : ToolCallRequestInfo :=
  {| callId := "111"; name := "read_file";
     args := {[ "path" := JStr "foo.txt" ]} |}.

Definition read_many_files_request : ToolCallRequestInfo :=
  {| callId := "456"; name := "read_many_files";
     args := {[ "paths" := JArr [JStr "foo.txt"] ]} |}.

Definition unknown_request : ToolCallRequestInfo :=
  {| callId := "7"; name := "frobnicate"; args := ∅ |}.

Definition no_command_request : ToolCallRequestInfo :=
  {| callId := "9"; name := "run_shell_command"; args := ∅ |}.

(** The state before the first stream, and the state in which the model
    is about to answer without tool calls. *)
Definition start : @St nat := {| world := O; calls := []; sent := [] |}.


Definition initial_prompt : PartListUnion := PLOne (PUString "initial prompt").

Definition execute := execute isBinary getErrorMessage ShellExecutionService_execute config.

(** The library run with the recording callback. *)
Definition processStream := processStream JSON_stringify (@recording nat).

Definition loop_body := loop_body JSON_stringify Math_random (@recording nat).

Definition streamQuery :=
  streamQuery isBinary getErrorMessage JSON_stringify
    ShellExecutionService_execute Math_random (@recording nat).

Definition streamQuery_with :=
  streamQuery_with getErrorMessage JSON_stringify Math_random (@recording nat).

(** A callback that throws whatever it is handed. *)
Definition throwing : BotMessage -> @Effect nat unit :=
  fun _ w => (Throw {| message := "callback failed" |}, w).

End Sample.

(* ===================================================================== *)
(** * Vocabulary of the statements *)
(* ===================================================================== *)

(** The names that the [switch] of [execute] knows, and those among them
    that are looked up in the tool registry. *)
Definition registry_tools : list string :=
  [ "read_many_files"; "read_file"; "write_file"; "replace" ].

Definition implemented : list string := "run_shell_command" :: registry_tools.

(** The conversion of an outcome's content in the words of the
    specification: a sequence of parts is joined with newlines, anything
    else is stringified, an absent payload is the empty text. *)
Definition normalize_spec (c : option PartListUnion) : string :=
  match c with
  | None => ""
  | Some (PLMany ps) => join newline (map PartUnion_toString ps)
  | Some (PLOne p) => PartUnion_toString p
  end.

(** The text for the outcome of a command in the words of the
    specification: six cases, each under the condition that none of the
    cases before it applies.  A command was ended by a signal when the
    outcome names one, and by none when the field is [null] or holds no
    name. *)
Definition unsignalled (r : ShellExecutionResult) : Prop :=
  signal r = None \/ signal r = Some "".

Inductive ShellOutcomeText (isBinary : list Byte.byte -> bool)
    (r : ShellExecutionResult) : string -> Prop :=
| OutcomeError e :
    error r = Some e ->
    ShellOutcomeText isBinary r ("[ERROR] " +:+ message e +:+ newline +:+ output r)
| OutcomeCancelled :
    error r = None -> aborted r = true ->
    ShellOutcomeText isBinary r
      ("[CANCELLED] Command was cancelled." +:+ newline +:+ output r)
| OutcomeSignal sg :
    error r = None -> aborted r = false -> signal r = Some sg -> sg <> "" ->
    ShellOutcomeText isBinary r
      ("[ERROR] Command terminated by signal: " +:+ sg +:+ "." +:+ newline +:+ output r)
| OutcomeExitCode :
    error r = None -> aborted r = false -> unsignalled r ->
    exitCode r <> 0 ->
    ShellOutcomeText isBinary r
      ("[ERROR] Command exited with code " +:+ string_of_Z (exitCode r) +:+ "."
         +:+ newline +:+ output r)
| OutcomeBinary :
    error r = None -> aborted r = false -> unsignalled r ->
    exitCode r = 0 -> isBinary (rawOutput r) = true ->
    ShellOutcomeText isBinary r "[Command produced binary output, which is not shown.]"
| OutcomeTrimmed :
    error r = None -> aborted r = false -> unsignalled r ->
    exitCode r = 0 -> isBinary (rawOutput r) = false ->
    trim (output r) <> "" ->
    ShellOutcomeText isBinary r (trim (output r))
| OutcomeEmpty :
    error r = None -> aborted r = false -> unsignalled r ->
    exitCode r = 0 -> isBinary (rawOutput r) = false ->
    trim (output r) = "" ->
    ShellOutcomeText isBinary r "(Command produced no output)".

(** The state after further messages were handed to the callback. *)
Definition emit {W : Type} (s : @St W) (msgs : list BotMessage) : @St W :=
  {| world := world s; calls := calls s; sent := sent s ++ msgs |}.

(** The events that a stream yields, the failure that it ends with, and
    the tool-call requests among events. *)
Fixpoint stream_events (stream : Stream) : list ServerGeminiStreamEvent :=
  match stream with
  | SYield event rest => event :: stream_events rest
  | SDone | SThrow _ => []
  end.

Fixpoint stream_failure (stream : Stream) : option Thrown :=
  match stream with
  | SDone => None
  | SThrow e => Some e
  | SYield _ rest => stream_failure rest
  end.

Definition requests_of (events : list ServerGeminiStreamEvent)
  : list ToolCallRequestInfo :=
  flat_map (fun event => match event with
                         | EvToolCallRequest r => [r]
                         | _ => []
                         end) events.

(** The messages that the [switch] of [processStream] hands to the
    callback for one event. *)
Definition messages_of_event (JSON_stringify : JsVal -> string)
    (prompt_id : string) (event : ServerGeminiStreamEvent) : list BotMessage :=
  match event with
  | EvThought value => [MsgThought value]
  | EvContent value => [MsgContent value]
  | EvToolCallRequest value => [MsgToolCallRequest value]
  | EvError value => [MsgError (JSON_stringify value)]
  | EvFinished value => [MsgFinished value prompt_id]
  | EvUserCancelled => [MsgInfo "Request cancelled by user."]
  | EvChatCompressed _ => [MsgInfo "Chat history was compressed."]
  | EvLoopDetected => [MsgError "Loop detected. Halting execution."]
  | EvToolCallConfirmation _ | EvToolCallResponse _ | EvMaxSessionTurns => []
  | EvOther _ _ => [MsgError ("Unknown event type: " +:+ object_toString)]
  end.

Definition messages_of_events (JSON_stringify : JsVal -> string)
    (prompt_id : string) (events : list ServerGeminiStreamEvent) : list BotMessage :=
  flat_map (messages_of_event JSON_stringify prompt_id) events.

(** The mapping from events to messages in the words of the
    specification's table; where the table fixes no wording, any text
    will do, and the message for a tag outside the known ones is to name
    that tag. *)
Inductive Classified (JSON_stringify : JsVal -> string) (prompt_id : string)
  : ServerGeminiStreamEvent -> list BotMessage -> Prop :=
| ClassThought value :
    Classified JSON_stringify prompt_id (EvThought value) [MsgThought value]
| ClassContent value :
    Classified JSON_stringify prompt_id (EvContent value) [MsgContent value]
| ClassToolCallRequest value :
    Classified JSON_stringify prompt_id (EvToolCallRequest value)
      [MsgToolCallRequest value]
| ClassError value :
    Classified JSON_stringify prompt_id (EvError value)
      [MsgError (JSON_stringify value)]
| ClassFinished value :
    Classified JSON_stringify prompt_id (EvFinished value)
      [MsgFinished value prompt_id]
| ClassUserCancelled text :
    Classified JSON_stringify prompt_id EvUserCancelled [MsgInfo text]
| ClassChatCompressed value text :
    Classified JSON_stringify prompt_id (EvChatCompressed value) [MsgInfo text]
| ClassLoopDetected text :
    Classified JSON_stringify prompt_id EvLoopDetected [MsgError text]
| ClassToolCallConfirmation value :
    Classified JSON_stringify prompt_id (EvToolCallConfirmation value) []
| ClassToolCallResponse value :
    Classified JSON_stringify prompt_id (EvToolCallResponse value) []
| ClassMaxSessionTurns :
    Classified JSON_stringify prompt_id EvMaxSessionTurns []
| ClassOther type value text :
    contains type text ->
    Classified JSON_stringify prompt_id (EvOther type value) [MsgError text].

(** A pass whose stream has been obtained and read: the three calls are
    logged and the messages of the stream's events handed over. *)
Definition opened {W : Type} (JSON_stringify : JsVal -> string) (s : @St W)
    (currentPrompt : PartListUnion) (prompt_id : string) (w : W)
    (stream : Stream) : @St W :=
  emit {| world := w;
          calls := calls s ++ [CallGetSessionId; CallRandom;
                               CallSendMessageStream currentPrompt prompt_id];
          sent := sent s |}
       (messages_of_events JSON_stringify prompt_id (stream_events stream)).

(** The messages of the loop that informs the bot about tool results. *)
Definition inform_messages (toolCallRequests : list ToolCallRequestInfo)
    (toolResults : list ToolResult) : list BotMessage :=
  flat_map (fun r => match find_request toolCallRequests (res_callId r) with
                     | Some originalRequest => [MsgToolResult originalRequest r]
                     | None => []
                     end) toolResults.

(** A scheduler that does not use the callback. *)
Definition silent {W : Type}
    (scheduler : list ToolCallRequestInfo -> @M W (list ToolResult)) : Prop :=
  forall requests s, sent (snd (scheduler requests s)) = sent s.

(** Every [tool_result] message comes after a [tool_call_request]
    message for the request it carries, whose callId is the result's. *)
Definition results_follow_requests (msgs : list BotMessage) : Prop :=
  forall i request r,
    msgs !! i = Some (MsgToolResult request r) ->
    callId request = res_callId r
    /\ exists j, (j < i)%nat /\ msgs !! j = Some (MsgToolCallRequest request).

(** The same, read from left to right: [seen] holds the requests
    announced so far. *)
Fixpoint follows (seen : list ToolCallRequestInfo) (msgs : list BotMessage) : Prop :=
  match msgs with
  | [] => True
  | MsgToolCallRequest request :: rest => follows (request :: seen) rest
  | MsgToolResult request r :: rest =>
      (In request seen /\ callId request = res_callId r) /\ follows seen rest
  | _ :: rest => follows seen rest
  end.

Fixpoint announced (msgs : list BotMessage) (seen : list ToolCallRequestInfo)
  : list ToolCallRequestInfo :=
  match msgs with
  | [] => seen
  | MsgToolCallRequest request :: rest => announced rest (request :: seen)
  | _ :: rest => announced rest seen
  end.

(* ===================================================================== *)
(** * initialize *)
(* ===================================================================== *)

(** [o] as a condition, for a string that may be absent: it holds for a
    string that is present and not empty. *)
Definition string_truthy (o : option string) : option string :=
  match o with
  | Some s => if String.eqb s "" then None else Some s
  | None => None
  end.

(** What [loadSettings] returns, as far as [initialize] reads it: the
    errors met while reading the settings files, and the merged
    settings with the selected authentication type. *)
Record SettingsError : Type :=
  { settings_error_path : string; settings_error_message : string }.

Record Settings : Type := { selectedAuthType : option string }.

Record LoadedSettings : Type :=
  { errors : list SettingsError; merged : Settings }.

(** The calls that [initialize] makes, in the order they happen. *)
Inductive StartupCall : Type :=
| CallCwd
| CallLoadSettings (workspaceRoot : string)
| CallLoadExtensions (workspaceRoot : string)
| CallLoadCliConfig (settings : Settings) (extensions : JsVal)
    (sessionId : string) (argv : JsVal)
| CallInitialize
| CallValidateAuthMethod (authType : string)
| CallRefreshAuth (authType : string).

Section Startup.

Context {W : Type}.

(** The [Config] object with the two more methods that [initialize]
    calls on it. *)
Record ConfigObject : Type :=
  { as_Config : @Config W;
    config_initialize : @Effect W unit;
    refreshAuth : string -> @Effect W unit }.

(** [process.cwd], the loaders of the config directory, [validateAuthMethod]
    and the [sessionId] of the core package. *)
Variable process_cwd : @Effect W string.
Variable loadSettings : string -> @Effect W LoadedSettings.
Variable loadExtensions : string -> @Effect W JsVal.
Variable loadCliConfig : Settings -> JsVal -> string -> JsVal -> @Effect W ConfigObject.
Variable validateAuthMethod : string -> @Effect W (option string).
Variable sessionId : string.

Record StartupSt : Type :=
  { startup_world : W; startup_calls : list StartupCall }.

Definition SM (A : Type) : Type := StartupSt -> Res A * StartupSt.

Definition sret {A} (a : A) : SM A := fun s => (Ok a, s).

Definition sthrow {A} (e : Thrown) : SM A := fun s => (Throw e, s).

Definition sbind {A B} (m : SM A) (k : A -> SM B) : SM B :=
  fun s => match m s with
           | (Ok a, s') => k a s'
           | (Throw e, s') => (Throw e, s')
           end.

Definition stry {A} (m : SM A) (h : Thrown -> SM A) : SM A :=
  fun s => match m s with
           | (Ok a, s') => (Ok a, s')
           | (Throw e, s') => h e s'
           end.

Definition scall {A} (c : StartupCall) (f : @Effect W A) : SM A :=
  fun s => let (r, w) := f (startup_world s) in
           (r, {| startup_world := w; startup_calls := startup_calls s ++ [c] |}).

Notation "'do' x <- m ; k" := (sbind m (fun x => k))
  (at level 10, x name, m at level 100, k at level 200, only parsing).

(** [`Error in ${error.path}: ${error.message}`] *)
Definition settings_error_line (e : SettingsError) : string :=
  "Error in " +:+ settings_error_path e +:+ ": " +:+ settings_error_message e.

(** The [try] block of [initialize]. *)
Definition authenticate (config : ConfigObject) (authType : string) : SM unit :=
  do err <- scall (CallValidateAuthMethod authType) (validateAuthMethod authType) ;
  match string_truthy err with
  | Some err => sthrow {| message := err |}
  | None => scall (CallRefreshAuth authType) (refreshAuth config authType)
  end.

Definition initialize : SM ConfigObject :=
  do workspaceRoot <- scall CallCwd process_cwd ;
  do settings <- scall (CallLoadSettings workspaceRoot) (loadSettings workspaceRoot) ;
  match errors settings with
  | _ :: _ =>
      sthrow {| message :=
        "Failed to load settings:" +:+ newline
          +:+ join newline (map settings_error_line (errors settings)) |}
  | [] =>
  match string_truthy (selectedAuthType (merged settings)) with
  | None =>
      sthrow {| message :=
        "Authentication not configured. Please run `gemini auth` or `gemini init` to set up your authentication method." |}
  | Some authType =>
      do extensions <-
        scall (CallLoadExtensions workspaceRoot) (loadExtensions workspaceRoot) ;
      do config <-
        scall (CallLoadCliConfig (merged settings) extensions sessionId
                 (JObj [("interactive", JBool false)]))
              (loadCliConfig (merged settings) extensions sessionId
                 (JObj [("interactive", JBool false)])) ;
      do _ <- scall CallInitialize (config_initialize config) ;
      do _ <- stry (authenticate config authType)
                (fun err =>
                   sthrow {| message :=
                     "Authentication failed: " +:+ message_or_String err |}) ;
      match getGeminiClient (as_Config config) with
      | None =>
          sthrow {| message :=
            "Gemini client could not be initialized. This may be due to an issue with your authentication credentials." |}
      | Some _ => sret config
      end
  end
  end.

End Startup.

(* ===================================================================== *)
(** * bot-interface.ts *)
(* ===================================================================== *)

(** The double quote. *)
Definition quote : string := String "034" "".

(** [runGeminiCli(prompt, callback)]: [messages] are the strings that the
    callback has received so far. *)
Definition runGeminiCli (prompt : string) (messages : list string) : list string :=
  (messages
     ++ ["Running Gemini CLI with prompt: " +:+ quote +:+ prompt +:+ quote])
    ++ ["This is a placeholder response from the Gemini CLI."].

(* ===================================================================== *)
(** * A sample start-up *)
(* ===================================================================== *)

Module SampleStartup.

Definition process_cwd : @Effect nat string := fun w => (Ok "/work", w).

Definition good_settings : LoadedSettings :=
  {| errors := []; merged := {| selectedAuthType := Some "oauth-personal" |} |}.

(** Settings files with two errors. *)
Definition bad_settings : LoadedSettings :=
  {| errors := [ {| settings_error_path := "/work/.gemini/settings.json";
                    settings_error_message := "Unexpected token" |};
                 {| settings_error_path := "/home/.gemini/settings.json";
                    settings_error_message := "Unexpected end of input" |} ];
     merged := {| selectedAuthType := Some "oauth-personal" |} |}.

(** Settings without an authentication type. *)
Definition anonymous_settings : LoadedSettings :=
  {| errors := []; merged := {| selectedAuthType := None |} |}.

Definition loadExtensions (root : string) : @Effect nat JsVal :=
  fun w => (Ok (JArr []), w).

(** A config whose authentication succeeds, and one whose refresh is
    refused. *)
Definition config_object : @ConfigObject nat :=
  {| as_Config := Sample.config;
     config_initialize := fun w => (Ok tt, w);
     refreshAuth := fun _ w => (Ok tt, w) |}.

Definition config_object_refused : @ConfigObject nat :=
  {| as_Config := Sample.config;
     config_initialize := fun w => (Ok tt, w);
     refreshAuth := fun _ w => (Throw {| message := "token expired" |}, w) |}.

Definition loadCliConfig (c : @ConfigObject nat)
    (settings : Settings) (extensions : JsVal) (sessionId : string) (argv : JsVal)
  : @Effect nat (@ConfigObject nat) :=
  fun w => (Ok c, w).

Definition validateAuthMethod (authType : string) : @Effect nat (option string) :=
  fun w => (Ok None, w).

(** A validation that objects to the authentication type. *)
Definition validateAuthMethod_strict (authType : string)
  : @Effect nat (option string) :=
  fun w => (Ok (Some "GEMINI_API_KEY environment variable not found."), w).

Definition start : @StartupSt nat := {| startup_world := O; startup_calls := [] |}.

Definition initialize (settings : LoadedSettings) (c : @ConfigObject nat)
    (validate : string -> @Effect nat (option string)) :=
  initialize process_cwd (fun _ w => (Ok settings, w)) loadExtensions
    (loadCliConfig c) validate "session-id".

End SampleStartup.

(* ===================================================================== *)
(** * Further vocabulary *)
(* ===================================================================== *)

(** The calls that the tool scheduler may make: to the registry, to a
    tool, for the target directory, to the shell service. *)
Definition is_scheduler_call (c : Call) : bool :=
  match c with
  | CallGetToolRegistry | CallGetTool _ | CallBuild _ _ | CallExecute _
  | CallGetTargetDir | CallShellExecute _ _ => true
  | CallGetSessionId | CallRandom | CallSendMessageStream _ _ => false
  end.

(** The words by which each registry tool names its own failure. *)
Definition tool_words : list (string * string) :=
  [ ("read_file", "reading file"); ("replace", "replacing content");
    ("write_file", "writing file"); ("read_many_files", "reading files") ].

(** A string that consists of white space only. *)
Fixpoint all_white_space (s : string) : bool :=
  match s with
  | EmptyString => true
  | String c rest => is_white_space c && all_white_space rest
  end.

(** The stream that yields [events] and then goes on as [tail]. *)
Fixpoint stream_then (events : list ServerGeminiStreamEvent) (tail : Stream) : Stream :=
  match events with
  | [] => tail
  | event :: rest => SYield event (stream_then rest tail)
  end.

(** The requests of the [tool_call_request] messages among [msgs]. *)
Definition announced_requests (msgs : list BotMessage) : list ToolCallRequestInfo :=
  flat_map (fun m => match m with
                     | MsgToolCallRequest request => [request]
                     | _ => []
                     end) msgs.


(** The name and the content of a function-response part. *)
Definition part_name (p : PartUnion) : option string :=
  match p with
  | PUPart (PartFunctionResponse fr) => Some (functionResponse_name fr)
  | _ => None
  end.

Definition part_content (p : PartUnion) : option string :=
  match p with
  | PUPart (PartFunctionResponse fr) => Some (response_content (response fr))
  | _ => None
  end.

(** What every step of the scheduler keeps: the messages, and the calls
    logged so far, to which only scheduler calls are added. *)
Definition scheduler_step {W : Type} (s s' : @St W) : Prop :=
  sent s' = sent s
  /\ exists new, calls s' = calls s ++ new /\ forallb is_scheduler_call new = true.

(* ===================================================================== *)
(** * More of the sample environment *)
(* ===================================================================== *)

Module SampleMore.

(** A configuration whose tool registry cannot be obtained, and one
    whose target directory cannot. *)
Definition config_without_registry : @Config nat :=
  {| getToolRegistry := fun w => (Throw {| message := "registry not ready" |}, w);
     getTargetDir := fun w => (Throw {| message := "no target directory" |}, w);
     getSessionId := fun w => (Ok "session-id", w);
     getGeminiClient := Some Sample.client |}.

Definition execute_without_registry :=
  execute Sample.isBinary Sample.getErrorMessage
    Sample.ShellExecutionService_execute config_without_registry.

(** A configuration whose tool registry is refused without a reason, as
    by [Promise.reject()]. *)
Definition config_rejecting : @Config nat :=
  {| getToolRegistry := fun w => (Throw (ThrownValue JUndefined), w);
     getTargetDir := fun w => (Ok "/tmp", w);
     getSessionId := fun w => (Ok "session-id", w);
     getGeminiClient := Some Sample.client |}.

Definition execute_rejecting :=
  execute Sample.isBinary Sample.getErrorMessage
    Sample.ShellExecutionService_execute config_rejecting.


Definition replace_request : ToolCallRequestInfo :=
  {| callId := "101"; name := "replace";
     args := {[ "path" := JStr "foo.txt" ]} |}.

(** A clean run that prints only a line feed. *)
Definition blank : ShellExecutionResult :=
  {| output := newline; rawOutput := []; error := None; aborted := false;
     signal := None; exitCode := 0 |}.

(** Two requests with the same callId. *)
Definition twin_request : ToolCallRequestInfo :=
  {| callId := "123"; name := "read_file"; args := ∅ |}.

End SampleMore.

(* ===================================================================== *)
(** * Properties *)
(* ===================================================================== *)

(** ** Strings *)

Lemma js_or_empty (s : string) : js_or s "" = s.
Proof. unfold js_or. destruct s; reflexivity. Qed.

Lemma string_app_assoc (a b c : string) : (a +:+ b) +:+ c = a +:+ b +:+ c.
Proof. induction a as [|ch a IH]; simpl; [reflexivity | now rewrite IH]. Qed.

Lemma string_app_empty_r (a : string) : a +:+ "" = a.
Proof. induction a as [|ch a IH]; simpl; [reflexivity | now rewrite IH]. Qed.

Lemma starts_with_app (p rest : string) : starts_with p (p +:+ rest).
Proof. now exists rest. Qed.

Lemma starts_with_trans (p q s : string) :
  starts_with p q -> starts_with q s -> starts_with p s.
Proof.
  intros [r1 ->] [r2 ->]. exists (r1 +:+ r2). apply string_app_assoc.
Qed.

Lemma contains_app (before p rest : string) : contains p (before +:+ p +:+ rest).
Proof. now exists before, rest. Qed.

Lemma prefix_starts_with (p s : string) :
  String.prefix p s = true <-> starts_with p s.
Proof.
  revert s. induction p as [|c p IH]; intros s.
  - split; [intros _; now exists s | now destruct s].
  - destruct s as [|d s]; simpl.
    + split; [discriminate | intros [r Hr]; discriminate].
    + destruct (Ascii.ascii_dec c d) as [Heq|Hne].
      * fold (String.prefix p s). rewrite (IH s).
        split; intros [r Hr]; exists r; simpl in *; congruence.
      * split; [discriminate | intros [r Hr]; simpl in Hr; congruence].
Qed.

Lemma includes_contains (p s : string) : includes p s = true <-> contains p s.
Proof.
  induction s as [|c s IH].
  - change (includes p "") with (String.prefix p "" || false).
    rewrite orb_false_r, prefix_starts_with. split.
    + intros [r Hr]. exists "", r. exact Hr.
    + intros (b & r & Hr). destruct b; [now exists r | discriminate].
  - change (includes p (String c s))
      with (String.prefix p (String c s) || includes p s).
    rewrite orb_true_iff, prefix_starts_with, IH. split.
    + intros [[r Hr] | (b & r & Hr)].
      * exists "", r. exact Hr.
      * exists (String c b), r. simpl. now rewrite Hr.
    + intros (b & r & Hr). destruct b as [|c' b].
      * left. now exists r.
      * right. simpl in Hr. exists b, r. congruence.
Qed.

(** ** The monad *)

Section Properties.

#[local] Set Default Proof Using "Type".

Context {W : Type}.
Variable isBinary : list Byte.byte -> bool.
Variable getErrorMessage : Thrown -> string.
Variable JSON_stringify : JsVal -> string.
Variable ShellExecutionService_execute : JsVal -> string -> @Effect W ShellExecutionResult.
Variable Math_random : @Effect W string.
Variable config : @Config W.

Local Abbreviation St := (@St W).
Local Abbreviation M := (@M W).
Local Abbreviation registry_tool := (registry_tool getErrorMessage config).
Local Abbreviation runShellCommand :=
  (runShellCommand isBinary ShellExecutionService_execute config).
Local Abbreviation execute_switch :=
  (execute_switch isBinary getErrorMessage ShellExecutionService_execute config).
Local Abbreviation execute_one :=
  (execute_one isBinary getErrorMessage ShellExecutionService_execute config).
Local Abbreviation execute_from :=
  (execute_from isBinary getErrorMessage ShellExecutionService_execute config).
Local Abbreviation execute :=
  (execute isBinary getErrorMessage ShellExecutionService_execute config).

Ltac monad := unfold bind, ret, throw, try_catch, call, callback.

(** [expand f] unfolds the definition at the head of [f]. *)
Ltac head_of t := lazymatch t with ?f _ => head_of f | _ => t end.
Tactic Notation "expand" constr(t) := let h := head_of t in unfold h.
Tactic Notation "expand" constr(t) "in" hyp(H) :=
  let h := head_of t in unfold h in H.

Lemma bind_ok {A B} (m : M A) (k : A -> M B) s a s' :
  m s = (Ok a, s') -> bind m k s = k a s'.
Proof. intros H. unfold bind. now rewrite H. Qed.

Lemma bind_throw {A B} (m : M A) (k : A -> M B) s e s' :
  m s = (Throw e, s') -> bind m k s = (Throw e, s').
Proof. intros H. unfold bind. now rewrite H. Qed.

(** ** ToolScheduler.execute *)

Lemma execute_one_of_switch (request : ToolCallRequestInfo) (s : St) text s' :
  execute_switch request s = (Ok text, s') ->
  execute_one request s
  = (Ok {| res_callId := callId request; result := text |}, s').
Proof.
  intros H. expand execute_one.
  unfold bind, try_catch, ret. now rewrite H.
Qed.

(** The [catch] of the loop's body: a caught value with a [message] to
    read gives the request its result, and reading the [message] of
    [undefined] or of [null] throws out of the handler. *)
Lemma execute_one_of_throw (request : ToolCallRequestInfo) (s : St) e s' :
  execute_switch request s = (Throw e, s') ->
  execute_one request s
  = match message_of e with
    | inr error_message =>
        (Ok {| res_callId := callId request;
               result := "[ERROR] Tool '" +:+ name request +:+ "' failed: "
                           +:+ error_message |}, s')
    | inl type_error => (Throw (ThrownError type_error), s')
    end.
Proof.
  intros H. expand execute_one.
  unfold bind, try_catch, ret, throw. rewrite H.
  destruct (message_of e); reflexivity.
Qed.

(** A result of the loop's body carries the request's callId. *)
Lemma execute_one_callId (request : ToolCallRequestInfo) (s : St) r s' :
  execute_one request s = (Ok r, s') -> res_callId r = callId request.
Proof.
  destruct (execute_switch request s) as [[text|e] s1] eqn:Hsw.
  - rewrite (execute_one_of_switch _ _ _ _ Hsw). intros H. now inversion H.
  - rewrite (execute_one_of_throw _ _ _ _ Hsw).
    destruct (message_of e); intros H; now inversion H.
Qed.

(** When [execute] returns, it returns one result per request, in the
    order of the requests and with their callIds, after the results it
    started from. *)
Lemma execute_from_ok (requests : list ToolCallRequestInfo) :
  forall (results : list ToolResult) (s : St) out s',
    execute_from requests results s = (Ok out, s') ->
    exists rs,
      out = results ++ rs
      /\ map res_callId rs = map callId requests
      /\ forall results', execute_from requests results' s = (Ok (results' ++ rs), s').
Proof.
  induction requests as [|request rest IH]; intros results s out s' H.
  - simpl in H. unfold ret in H. inversion H; subst out s'.
    exists []. rewrite app_nil_r. repeat split.
    intros results'. simpl. unfold ret. now rewrite app_nil_r.
  - simpl in H. unfold bind in H.
    destruct (execute_one request s) as [[r|e] s1] eqn:H1; [|discriminate H].
    destruct (IH _ _ _ _ H) as (rs & -> & Hids & Hany).
    exists (r :: rs). split; [now rewrite <- app_assoc|]. split.
    + simpl. now rewrite (execute_one_callId _ _ _ _ H1), Hids.
    + intros results'. simpl. rewrite (bind_ok _ _ _ _ _ H1).
      rewrite Hany. now rewrite <- app_assoc.
Qed.

Lemma execute_ok (requests : list ToolCallRequestInfo) (s : St) results s' :
  execute requests s = (Ok results, s') ->
  map res_callId results = map callId requests.
Proof.
  intros H. expand execute in H.
  destruct (execute_from_ok _ _ _ _ _ H) as (rs & -> & Hids & _). exact Hids.
Qed.

Lemma execute_from_app (before rest : list ToolCallRequestInfo) :
  forall results s,
    execute_from (before ++ rest) results s
    = bind (execute_from before results) (execute_from rest) s.
Proof.
  induction before as [|request before IH]; intros results s; simpl.
  - reflexivity.
  - unfold bind.
    destruct (execute_one request s) as [[r|e] s1]; [|reflexivity].
    rewrite IH. reflexivity.
Qed.

(** The request that follows a prefix is handled in the state that the
    prefix leaves, and the rest in the state that the request leaves. *)
Lemma execute_split before request rest (s : St) rs s1 r s2 rs' s3 :
  execute before s = (Ok rs, s1) ->
  execute_one request s1 = (Ok r, s2) ->
  execute rest s2 = (Ok rs', s3) ->
  execute (before ++ request :: rest) s = (Ok (rs ++ r :: rs'), s3).
Proof.
  intros Hbefore Hone Hrest.
  expand execute in Hbefore. expand execute in Hrest. expand execute.
  destruct (execute_from_ok _ _ _ _ _ Hrest) as (rs0 & Heq & _ & Hany).
  simpl in Heq. subst rs0.
  rewrite execute_from_app.
  rewrite (bind_ok _ _ _ _ _ Hbefore). simpl.
  rewrite (bind_ok _ _ _ _ _ Hone). rewrite Hany. now rewrite <- app_assoc.
Qed.

(** A request at which the loop's body throws ends [execute]: the
    requests after it are not reached. *)
Lemma execute_split_throw before request rest (s : St) rs s1 e s2 :
  execute before s = (Ok rs, s1) ->
  execute_one request s1 = (Throw e, s2) ->
  execute (before ++ request :: rest) s = (Throw e, s2).
Proof.
  intros Hbefore Hone.
  expand execute in Hbefore. expand execute.
  rewrite execute_from_app.
  rewrite (bind_ok _ _ _ _ _ Hbefore). simpl.
  now rewrite (bind_throw _ _ _ _ _ Hone).
Qed.

Lemma execute_last before request (s : St) rs s1 r s2 :
  execute before s = (Ok rs, s1) ->
  execute_one request s1 = (Ok r, s2) ->
  execute (before ++ [request]) s = (Ok (rs ++ [r]), s2).
Proof.
  intros Hbefore Hone.
  exact (execute_split before request [] s rs s1 r s2 [] s2 Hbefore Hone eq_refl).
Qed.

(** The results collected before do not change how the remaining
    requests are handled. *)
Lemma execute_from_shift (requests : list ToolCallRequestInfo) :
  forall (results : list ToolResult) (s : St),
    execute_from requests results s
    = match execute_from requests [] s with
      | (Ok rs, s') => (Ok (results ++ rs), s')
      | (Throw e, s') => (Throw e, s')
      end.
Proof.
  induction requests as [|request rest IH]; intros results s; simpl.
  - unfold ret. now rewrite app_nil_r.
  - unfold bind. destruct (execute_one request s) as [[r|e] s1]; [|reflexivity].
    rewrite (IH (results ++ [r])), (IH [r]).
    destruct (execute_from rest [] s1) as [[rs|e] s']; [|reflexivity].
    now rewrite <- app_assoc.
Qed.

(** A request that gets a result is not the cause of a failure: the
    whole list returns, with the result in its place, exactly when the
    requests after it return, and throws what they throw. *)
Lemma execute_through before request rest (s0 : St) rs (s : St) r s1 :
  execute before s0 = (Ok rs, s) ->
  execute_one request s = (Ok r, s1) ->
  execute (before ++ request :: rest) s0
  = match execute rest s1 with
    | (Ok rs', s') => (Ok (rs ++ r :: rs'), s')
    | (Throw e, s') => (Throw e, s')
    end.
Proof.
  intros Hbefore Hone.
  expand execute in Hbefore. expand execute.
  rewrite execute_from_app.
  rewrite (bind_ok _ _ _ _ _ Hbefore). simpl.
  rewrite (bind_ok _ _ _ _ _ Hone). rewrite execute_from_shift.
  destruct (execute_from rest [] s1) as [[rs'|e] s']; [|reflexivity].
  now rewrite <- app_assoc.
Qed.

Lemma call_ok {A} (c : Call) (f : Effect A) (s : St) a w :
  f (world s) = (Ok a, w) ->
  call c f s = (Ok a, {| world := w; calls := calls s ++ [c]; sent := sent s |}).
Proof. intros H. unfold call. now rewrite H. Qed.

Lemma call_throw {A} (c : Call) (f : Effect A) (s : St) e w :
  f (world s) = (Throw e, w) ->
  call c f s = (Throw e, {| world := w; calls := calls s ++ [c]; sent := sent s |}).
Proof. intros H. unfold call. now rewrite H. Qed.

Lemma execute_switch_registry (request : ToolCallRequestInfo) :
  In (name request) registry_tools ->
  exists what,
    execute_switch request
    = registry_tool (name request) what
        (if String.eqb (name request) "read_many_files"
         then readManyFiles_normalize else toString_or_empty)
        (args request).
Proof.
  expand execute_switch.
  intros [H | [H | [H | [H | []]]]]; rewrite <- H; simpl; eexists; reflexivity.
Qed.

(** A failure to obtain the registry leaves the tool's method. *)
Lemma registry_tool_no_registry tool_name what normalize params (s : St) e w :
  getToolRegistry config (world s) = (Throw e, w) ->
  registry_tool tool_name what normalize params s
  = (Throw e, {| world := w; calls := calls s ++ [CallGetToolRegistry];
                 sent := sent s |}).
Proof.
  intros Hr. expand registry_tool.
  now rewrite (bind_throw _ _ _ _ _ (call_throw _ _ _ _ _ Hr)).
Qed.

(** C1: [execute] can throw.  When the tool registry cannot be obtained
    and the promise is rejected with [undefined] or with [null], the
    [catch] around the [switch] reads the [message] of the caught value,
    which throws a [TypeError]: [execute] returns no result at all, not
    for the request that met the failure, nor for the requests before
    and after it. *)
Theorem execute_rejects_when_the_caught_value_is_nullish
    (before : list ToolCallRequestInfo) (request : ToolCallRequestInfo)
    (rest : list ToolCallRequestInfo) (s0 : St) rs (s : St) (v : JsVal) w :
  execute before s0 = (Ok rs, s) ->
  In (name request) registry_tools ->
  getToolRegistry config (world s) = (Throw (ThrownValue v), w) ->
  v = JUndefined \/ v = JNull ->
  execute (before ++ request :: rest) s0
  = (Throw (ThrownError
       {| message :=
            "Cannot read properties of "
              +:+ match v with JNull => "null" | _ => "undefined" end
              +:+ " (reading 'message')" |}),
     {| world := w; calls := calls s ++ [CallGetToolRegistry]; sent := sent s |}).
Proof.
  intros Hbefore Hin Hr Hv.
  destruct (execute_switch_registry request Hin) as (what & Hsw).
  pose proof (registry_tool_no_registry (name request) what
                (if String.eqb (name request) "read_many_files"
                 then readManyFiles_normalize else toString_or_empty)
                (args request) s _ w Hr) as Hone.
  rewrite <- Hsw in Hone. apply execute_one_of_throw in Hone.
  destruct Hv as [-> | ->];
    exact (execute_split_throw before request rest s0 rs s _ _ Hbefore Hone).
Qed.

(** ** runShellCommand *)

(** The chain of [if]s computes the text that the six prioritised cases
    describe, and they describe no other. *)
Lemma signal_truthy_some (r : ShellExecutionResult) sg :
  signal_truthy (signal r) = Some sg <-> signal r = Some sg /\ sg <> "".
Proof.
  unfold signal_truthy. destruct (signal r) as [sg'|].
  - destruct (String.eqb_spec sg' "") as [->|Hne]; split.
    + discriminate.
    + intros [H Hne]. inversion H; subst sg. now destruct Hne.
    + intros H. inversion H; subst sg. now split.
    + intros [H _]. exact H.
  - split; [discriminate | intros [H _]; discriminate H].
Qed.

Lemma signal_truthy_none (r : ShellExecutionResult) :
  signal_truthy (signal r) = None <-> unsignalled r.
Proof.
  unfold signal_truthy, unsignalled. destruct (signal r) as [sg|].
  - destruct (String.eqb_spec sg "") as [->|Hne]; split.
    + intros _. now right.
    + reflexivity.
    + discriminate.
    + intros [H | H]; [discriminate H | inversion H; subst sg; now destruct Hne].
  - split; [intros _; now left | reflexivity].
Qed.

Lemma shell_result_text_outcome (r : ShellExecutionResult) :
  ShellOutcomeText isBinary r (shell_result_text isBinary r).
Proof.
  unfold shell_result_text.
  destruct (error r) as [e|] eqn:He; [now apply OutcomeError|].
  destruct (aborted r) eqn:Ha; [now apply OutcomeCancelled|].
  destruct (signal_truthy (signal r)) as [sg|] eqn:Hs.
  { apply signal_truthy_some in Hs. destruct Hs as [Hs Hne].
    now apply OutcomeSignal. }
  apply signal_truthy_none in Hs.
  destruct (Z.eqb_spec (exitCode r) 0) as [Hx|Hx]; simpl;
    [|now apply OutcomeExitCode].
  destruct (isBinary (rawOutput r)) eqn:Hb; [now apply OutcomeBinary|].
  unfold js_or. destruct (String.eqb_spec (trim (output r)) "") as [Ht|Ht].
  - now apply OutcomeEmpty.
  - now apply OutcomeTrimmed.
Qed.

Lemma shell_outcome_unique (r : ShellExecutionResult) (text : string) :
  ShellOutcomeText isBinary r text -> text = shell_result_text isBinary r.
Proof.
  intros H. unfold shell_result_text.
  destruct H as [e He | He Ha | sg He Ha Hs Hne | He Ha Hs Hx | He Ha Hs Hx Hb
                | He Ha Hs Hx Hb Ht | He Ha Hs Hx Hb Ht];
    rewrite He; try reflexivity; rewrite Ha; try reflexivity.
  - rewrite (proj2 (signal_truthy_some r sg) (conj Hs Hne)). reflexivity.
  - rewrite (proj2 (signal_truthy_none r) Hs).
    apply Z.eqb_neq in Hx. now rewrite Hx.
  - rewrite (proj2 (signal_truthy_none r) Hs). rewrite Hx, Hb. reflexivity.
  - rewrite (proj2 (signal_truthy_none r) Hs). rewrite Hx, Hb. simpl. unfold js_or.
    apply String.eqb_neq in Ht. now rewrite Ht.
  - rewrite (proj2 (signal_truthy_none r) Hs). rewrite Hx, Hb. simpl. now rewrite Ht.
Qed.

Lemma runShellCommand_run (command : JsVal) (s : St) cwd w1 r w2 :
  js_truthy command = true ->
  getTargetDir config (world s) = (Ok cwd, w1) ->
  ShellExecutionService_execute command cwd w1 = (Ok r, w2) ->
  runShellCommand command s
  = (Ok (shell_result_text isBinary r),
     {| world := w2;
        calls := calls s ++ [CallGetTargetDir; CallShellExecute command cwd];
        sent := sent s |}).
Proof.
  intros Ht Hd Hx. expand runShellCommand. rewrite Ht. simpl.
  rewrite (bind_ok _ _ _ _ _ (call_ok _ _ _ _ _ Hd)).
  erewrite bind_ok by (apply call_ok; simpl; exact Hx).
  unfold ret. simpl. now rewrite <- app_assoc.
Qed.

(** C3: when the command is run, the text that [runShellCommand] returns
    is the one of the first case that applies, in the order error,
    cancellation, signal, exit code, binary output, trimmed output (a
    placeholder when nothing is left of it).  So a command ended by
    SIGTERM is reported as such whatever its exit code and its output
    are; a clean run that prints "hello world" and a line feed gives
    "hello world"; exit code 2 gives a text that starts with "[ERROR]
    Command exited with code 2."; and a clean run with binary output
    gives the placeholder, whatever the bytes are: a byte of the raw
    output occurs in the text only if it is a character of the
    placeholder, and the zero byte does not occur. *)
Theorem runShellCommand_priority (command : JsVal) (s : St) cwd w1 r w2 :
  js_truthy command = true ->
  getTargetDir config (world s) = (Ok cwd, w1) ->
  ShellExecutionService_execute command cwd w1 = (Ok r, w2) ->
  exists text s',
    runShellCommand command s = (Ok text, s')
    /\ ShellOutcomeText isBinary r text
    /\ (forall text', ShellOutcomeText isBinary r text' -> text' = text)
    /\ (error r = None -> aborted r = false -> signal r = Some "SIGTERM" ->
        starts_with "[ERROR] Command terminated by signal: SIGTERM." text)
    /\ (error r = None -> aborted r = false -> signal r = None ->
        (exitCode r = 0 -> isBinary (rawOutput r) = false ->
         output r = "hello world" +:+ newline -> text = "hello world")
        /\ (exitCode r = 2 ->
            starts_with "[ERROR] Command exited with code 2." text)
        /\ (exitCode r = 0 -> isBinary (rawOutput r) = true ->
            text = "[Command produced binary output, which is not shown.]"
            /\ (forall b, In b (rawOutput r) ->
                  In b (String.list_byte_of_string text) ->
                  In b (String.list_byte_of_string
                          "[Command produced binary output, which is not shown.]"))
            /\ ~ In Byte.x00 (String.list_byte_of_string text))).
Proof.
  intros Ht Hd Hx. eexists _, _.
  split; [exact (runShellCommand_run _ _ _ _ _ _ Ht Hd Hx)|].
  split; [apply shell_result_text_outcome|].
  split; [intros text'; apply shell_outcome_unique|].
  split.
  - intros He Ha Hs. unfold shell_result_text. rewrite He, Ha, Hs. simpl.
    exists (newline +:+ output r). reflexivity.
  - intros He Ha Hs. unfold shell_result_text. rewrite He, Ha, Hs. simpl.
    split; [|split].
    + intros Hc Hb Ho. rewrite Hc, Hb, Ho. reflexivity.
    + intros Hc. rewrite Hc. simpl.
      exists (newline +:+ output r). reflexivity.
    + intros Hc Hb. rewrite Hc, Hb. simpl.
      split; [reflexivity|]. split; [intros b _ Hin; exact Hin|].
      vm_compute. intros H.
      repeat (destruct H as [H|H]; [discriminate H|]). exact H.
Qed.

(** ** Requests that cannot be served *)

Lemma execute_switch_default (request : ToolCallRequestInfo) (s : St) :
  ~ In (name request) implemented ->
  execute_switch request s
  = (Ok ("[ERROR] Tool '" +:+ name request +:+ "' is not implemented."), s).
Proof.
  intros Hn. expand execute_switch.
  repeat match goal with
  | |- context [String.eqb (name request) ?n] =>
      destruct (String.eqb_spec (name request) n) as [Heq|_];
      [exfalso; apply Hn; rewrite Heq; simpl; tauto|]
  end.
  reflexivity.
Qed.

Lemma registry_tool_not_found tool_name what normalize params (s : St) reg w1 w2 :
  getToolRegistry config (world s) = (Ok reg, w1) ->
  getTool reg tool_name w1 = (Ok None, w2) ->
  registry_tool tool_name what normalize params s
  = (Ok ("[ERROR] " +:+ tool_name +:+ " tool not found."),
     {| world := w2;
        calls := calls s ++ [CallGetToolRegistry; CallGetTool tool_name];
        sent := sent s |}).
Proof.
  intros Hr Hg. expand registry_tool.
  rewrite (bind_ok _ _ _ _ _ (call_ok _ _ _ _ _ Hr)).
  erewrite bind_ok by (apply call_ok; simpl; exact Hg).
  unfold ret. simpl. now rewrite <- app_assoc.
Qed.

(** C7: a request whose name is none of those that [execute] knows, or
    is one of the registry's tools while the registry has no tool of that
    name, gets a result (nothing is thrown for it) whose text starts with
    "[ERROR]" and contains the name; for an unknown name it is the "not
    implemented" text.  [s] is the state in which the request is reached,
    after the requests [before] it; the whole list then returns, with
    the result in its place, exactly when the requests after it return,
    and throws what they throw. *)
Theorem unresolved_request_reports_error
    (before : list ToolCallRequestInfo) (request : ToolCallRequestInfo)
    (rest : list ToolCallRequestInfo) (s0 : St) rs (s : St) :
  execute before s0 = (Ok rs, s) ->
  (~ In (name request) implemented
   \/ (In (name request) registry_tools
       /\ exists reg w1 w2,
            getToolRegistry config (world s) = (Ok reg, w1)
            /\ getTool reg (name request) w1 = (Ok None, w2))) ->
  exists text s1,
    execute (before ++ [request]) s0
    = (Ok (rs ++ [ {| res_callId := callId request; result := text |} ]), s1)
    /\ execute (before ++ request :: rest) s0
       = match execute rest s1 with
         | (Ok rs', s') =>
             (Ok (rs ++ {| res_callId := callId request; result := text |} :: rs'), s')
         | (Throw e, s') => (Throw e, s')
         end
    /\ starts_with "[ERROR]" text
    /\ contains (name request) text
    /\ (~ In (name request) implemented ->
        text = "[ERROR] Tool '" +:+ name request +:+ "' is not implemented.").
Proof.
  intros Hbefore [Hn | (Hin & reg & w1 & w2 & Hr & Hg)].
  - pose proof (execute_one_of_switch _ _ _ _ (execute_switch_default request s Hn))
      as Hone.
    pose proof (execute_last _ _ _ _ _ _ _ Hbefore Hone) as Hlast.
    pose proof (execute_through _ _ rest _ _ _ _ _ Hbefore Hone) as Hrest.
    eexists _, _. split; [exact Hlast|]. split; [exact Hrest|]. split; [|split].
    + exists (" Tool '" +:+ name request +:+ "' is not implemented."). reflexivity.
    + exists "[ERROR] Tool '", "' is not implemented.". reflexivity.
    + reflexivity.
  - destruct (execute_switch_registry request Hin) as (what & Hsw).
    pose proof (registry_tool_not_found (name request) what
                  (if String.eqb (name request) "read_many_files"
                   then readManyFiles_normalize else toString_or_empty)
                  (args request) s reg w1 w2 Hr Hg) as Hone.
    rewrite <- Hsw in Hone. apply execute_one_of_switch in Hone.
    pose proof (execute_last _ _ _ _ _ _ _ Hbefore Hone) as Hlast.
    pose proof (execute_through _ _ rest _ _ _ _ _ Hbefore Hone) as Hrest.
    eexists _, _. split; [exact Hlast|]. split; [exact Hrest|]. split; [|split].
    + exists (" " +:+ name request +:+ " tool not found."). reflexivity.
    + exists "[ERROR] ", " tool not found.". reflexivity.
    + intros Hn. exfalso. apply Hn. right. exact Hin.
Qed.

(** C9: a [run_shell_command] request whose [command] argument is absent
    or the empty string gets the text "[ERROR] No command provided to
    run_shell_command.", and handling it leaves the state as it was: the
    log of calls gains no entry, so neither the shell execution service
    nor any other collaborator is invoked. *)
Theorem empty_command_is_not_run
    (before : list ToolCallRequestInfo) (request : ToolCallRequestInfo)
    (s0 : St) rs (s : St) :
  name request = "run_shell_command" ->
  (args request !! "command" = None
   \/ args request !! "command" = Some (JStr "")) ->
  execute before s0 = (Ok rs, s) ->
  execute (before ++ [request]) s0
  = (Ok (rs ++ [ {| res_callId := callId request;
                    result := "[ERROR] No command provided to run_shell_command." |} ]),
     s).
Proof.
  intros Hname Hcommand Hbefore.
  assert (Hsw : execute_switch request s
                = (Ok "[ERROR] No command provided to run_shell_command.", s)).
  { expand execute_switch. rewrite Hname. simpl.
    expand runShellCommand. unfold js_get.
    destruct Hcommand as [-> | ->]; reflexivity. }
  apply execute_one_of_switch in Hsw.
  exact (execute_last _ _ _ _ _ _ _ Hbefore Hsw).
Qed.

(** ** The registry's tools *)

Lemma registry_tool_success tool_name what normalize params (s : St)
    reg w1 tool w2 invocation w3 out w4 :
  getToolRegistry config (world s) = (Ok reg, w1) ->
  getTool reg tool_name w1 = (Ok (Some tool), w2) ->
  build tool params w2 = (Ok invocation, w3) ->
  invocation_execute invocation w3 = (Ok out, w4) ->
  registry_tool tool_name what normalize params s
  = (Ok (normalize (llmContent out)),
     {| world := w4;
        calls := calls s ++ [CallGetToolRegistry; CallGetTool tool_name;
                             CallBuild tool_name params; CallExecute tool_name];
        sent := sent s |}).
Proof.
  intros Hr Hg Hb Hx. expand registry_tool.
  rewrite (bind_ok _ _ _ _ _ (call_ok _ _ _ _ _ Hr)).
  erewrite bind_ok by (apply call_ok; simpl; exact Hg).
  unfold try_catch.
  erewrite bind_ok by (apply call_ok; simpl; exact Hb).
  erewrite bind_ok by (apply call_ok; simpl; exact Hx).
  unfold ret. simpl. now rewrite <- !app_assoc.
Qed.

(** A failure of [build] or of the invocation is reported in the text. *)
Lemma registry_tool_build_failure tool_name what normalize params (s : St)
    reg w1 tool w2 e w3 :
  getToolRegistry config (world s) = (Ok reg, w1) ->
  getTool reg tool_name w1 = (Ok (Some tool), w2) ->
  build tool params w2 = (Throw e, w3) ->
  exists s',
    registry_tool tool_name what normalize params s
    = (Ok ("[ERROR] Error " +:+ what +:+ ": " +:+ getErrorMessage e), s').
Proof.
  intros Hr Hg Hb. expand registry_tool.
  rewrite (bind_ok _ _ _ _ _ (call_ok _ _ _ _ _ Hr)).
  erewrite bind_ok by (apply call_ok; simpl; exact Hg).
  unfold try_catch.
  erewrite bind_throw by (apply call_throw; simpl; exact Hb).
  unfold ret. eexists. reflexivity.
Qed.

Lemma readManyFiles_normalize_spec (c : option PartListUnion) :
  readManyFiles_normalize c = normalize_spec c.
Proof.
  destruct c as [[p|ps]|]; simpl; try reflexivity.
  unfold readManyFiles_normalize. simpl. apply js_or_empty.
Qed.

(** C6: when the registry has the tool and the invocation is built and
    executed without failure, the request gets a result (the whole list
    then returns, with the result in its place, exactly when the
    requests after it return), and the result text is the content
    converted:
    an absent payload gives the empty text and a payload that is not a
    sequence is stringified, for each of read_file, write_file, replace
    and read_many_files; a sequence of parts is joined with newlines for
    read_many_files, and stringified like any other value (which joins
    the parts with commas) for the other three. *)
Theorem registry_tool_content_normalized
    (before : list ToolCallRequestInfo) (request : ToolCallRequestInfo)
    (rest : list ToolCallRequestInfo) (s0 : St) rs (s : St)
    reg w1 tool w2 invocation w3 out w4 :
  execute before s0 = (Ok rs, s) ->
  In (name request) registry_tools ->
  getToolRegistry config (world s) = (Ok reg, w1) ->
  getTool reg (name request) w1 = (Ok (Some tool), w2) ->
  build tool (args request) w2 = (Ok invocation, w3) ->
  invocation_execute invocation w3 = (Ok out, w4) ->
  exists text s1,
    execute (before ++ [request]) s0
    = (Ok (rs ++ [ {| res_callId := callId request; result := text |} ]), s1)
    /\ execute (before ++ request :: rest) s0
       = match execute rest s1 with
         | (Ok rs', s') =>
             (Ok (rs ++ {| res_callId := callId request; result := text |} :: rs'), s')
         | (Throw e, s') => (Throw e, s')
         end
    /\ text = match llmContent out with
              | None => ""
              | Some (PLOne p) => PartUnion_toString p
              | Some (PLMany ps) =>
                  if String.eqb (name request) "read_many_files"
                  then join newline (map PartUnion_toString ps)
                  else join "," (map PartUnion_toString ps)
              end
    /\ (name request = "read_many_files" -> text = normalize_spec (llmContent out))
    /\ ((forall ps, llmContent out <> Some (PLMany ps)) ->
        text = normalize_spec (llmContent out)).
Proof.
  intros Hbefore Hin Hr Hg Hb Hx.
  destruct (execute_switch_registry request Hin) as (what & Hsw).
  pose proof (registry_tool_success (name request) what
                (if String.eqb (name request) "read_many_files"
                 then readManyFiles_normalize else toString_or_empty)
                (args request) s reg w1 tool w2 invocation w3 out w4
                Hr Hg Hb Hx) as Hone.
  rewrite <- Hsw in Hone. apply execute_one_of_switch in Hone.
  pose proof (execute_last _ _ _ _ _ _ _ Hbefore Hone) as Hlast.
  pose proof (execute_through _ _ rest _ _ _ _ _ Hbefore Hone) as Hrest.
  eexists _, _. split; [exact Hlast|]. split; [exact Hrest|]. split; [|split].
  - destruct (String.eqb (name request) "read_many_files");
      destruct (llmContent out) as [[p|ps]|]; simpl; try reflexivity;
      try apply js_or_empty.
  - intros ->. simpl. apply readManyFiles_normalize_spec.
  - intros Hns.
    destruct (String.eqb (name request) "read_many_files");
      [apply readManyFiles_normalize_spec|].
    destruct (llmContent out) as [[p|ps]|]; simpl; try reflexivity.
    + apply js_or_empty.
    + now destruct (Hns ps).
Qed.

(** ** processStream *)

(** [processStream] with a callback of the caller's; in what follows
    the callback is the recording one, where no other is named. *)
Local Abbreviation processStream_calling := (@processStream W JSON_stringify).

Local Abbreviation callback := (@callback W recording).
Local Abbreviation processStream_from := (@processStream_from W JSON_stringify recording).
Local Abbreviation processStream := (@processStream W JSON_stringify recording).
Local Abbreviation messages_of_event := (messages_of_event JSON_stringify).
Local Abbreviation messages_of_events := (messages_of_events JSON_stringify).
Local Abbreviation Classified := (Classified JSON_stringify).

Lemma emit_nil (s : St) : emit s [] = s.
Proof. destruct s. unfold emit. simpl. now rewrite app_nil_r. Qed.

Lemma emit_emit (s : St) a b : emit (emit s a) b = emit s (a ++ b).
Proof. unfold emit. simpl. now rewrite app_assoc. Qed.

Lemma callback_run (msg : BotMessage) (s : St) :
  callback msg s = (Ok tt, emit s [msg]).
Proof. reflexivity. Qed.

(** The loop hands over the messages of the events in the order of the
    events, whatever way the stream ends; it returns the requests it
    collected when the stream ends, and throws when the stream fails. *)
Lemma processStream_from_run (stream : Stream) (prompt_id : string) :
  forall toolCallRequests (s : St),
    processStream_from stream prompt_id toolCallRequests s
    = (match stream_failure stream with
       | None => Ok (toolCallRequests ++ requests_of (stream_events stream))
       | Some e => Throw e
       end,
       emit s (messages_of_events prompt_id (stream_events stream))).
Proof.
  induction stream as [|event rest IH|e]; intros acc s; simpl.
  - unfold ret. now rewrite app_nil_r, emit_nil.
  - destruct event; simpl; unfold bind; rewrite ?callback_run, IH, ?emit_emit;
      simpl; try reflexivity.
    now rewrite <- app_assoc.
  - unfold throw. now rewrite emit_nil.
Qed.

Lemma processStream_run (stream : Stream) (prompt_id : string) (s : St) :
  processStream stream prompt_id s
  = (match stream_failure stream with
     | None => Ok (requests_of (stream_events stream))
     | Some e => Throw e
     end,
     emit s (messages_of_events prompt_id (stream_events stream))).
Proof. apply processStream_from_run. Qed.

Lemma stream_of_list_events evs : stream_events (stream_of_list evs) = evs.
Proof. induction evs as [|ev evs IH]; simpl; [reflexivity | now rewrite IH]. Qed.

Lemma stream_of_list_failure evs : stream_failure (stream_of_list evs) = None.
Proof. induction evs as [|ev evs IH]; simpl; [reflexivity | exact IH]. Qed.

(** For a stream that ends, [processStream] returns the requests among
    its events and has handed over, in the order of the events, the
    messages of the table for every event with one of the known tags. *)
Lemma processStream_classifies (events : list ServerGeminiStreamEvent)
    (prompt_id : string) (s : St) :
  processStream (stream_of_list events) prompt_id s
  = (Ok (requests_of events), emit s (messages_of_events prompt_id events))
  /\ forall event,
       (forall type value, event <> EvOther type value) ->
       In (event_type event) known_types
       /\ Classified prompt_id event (messages_of_event prompt_id event).
Proof.
  split.
  - rewrite processStream_run, stream_of_list_events, stream_of_list_failure.
    reflexivity.
  - intros event Hknown. unfold known_types.
    destruct event; try (now destruct (Hknown type value)); simpl;
      (split; [repeat ((left; reflexivity) || right) | constructor]).
Qed.

(** C4: an event whose tag is outside the known ones, here "retry",
    makes [processStream] hand over the error message "Unknown event
    type: [object Object]": the message renders the event object, and the
    tag does not occur in it, so it is not a message that the table
    allows for this event. *)
Theorem unknown_event_message_omits_tag (prompt_id : string) (s : St) :
  processStream (stream_of_list [EvOther "retry" JNull]) prompt_id s
  = (Ok [], emit s [MsgError "Unknown event type: [object Object]"])
  /\ ~ contains "retry" "Unknown event type: [object Object]"
  /\ ~ Classified prompt_id (EvOther "retry" JNull)
         (messages_of_event prompt_id (EvOther "retry" JNull)).
Proof.
  split; [reflexivity|].
  assert (Hno : ~ contains "retry" "Unknown event type: [object Object]").
  { rewrite <- includes_contains. vm_compute. discriminate. }
  split; [exact Hno|].
  intros H. inversion H; subst. contradiction.
Qed.

(** ** Order of requests and results among the messages *)

Lemma announced_app a b seen : announced (a ++ b) seen = announced b (announced a seen).
Proof.
  revert seen. induction a as [|m a IH]; intros seen; simpl; [reflexivity|].
  destruct m; apply IH.
Qed.

Lemma announced_mono msgs : forall seen request,
  In request seen -> In request (announced msgs seen).
Proof.
  induction msgs as [|m msgs IH]; intros seen request Hin; simpl; [exact Hin|].
  destruct m; apply IH; simpl; auto.
Qed.

Lemma follows_app a : forall b seen,
  follows seen (a ++ b) <-> follows seen a /\ follows (announced a seen) b.
Proof.
  induction a as [|m a IH]; intros b seen; simpl; [tauto|].
  destruct m; rewrite ?IH; tauto.
Qed.

Lemma follows_mono msgs : forall seen seen',
  (forall request, In request seen -> In request seen') ->
  follows seen msgs -> follows seen' msgs.
Proof.
  induction msgs as [|m msgs IH]; intros seen seen' Hincl; simpl; [tauto|].
  destruct m; try apply (IH seen seen' Hincl).
  - apply IH. intros q [->|Hin]; simpl; auto.
  - intros [[Hin Hid] Hrest]. split; [split; auto|].
    now apply (IH seen seen' Hincl).
Qed.

Lemma follows_concat a b : follows [] a -> follows [] b -> follows [] (a ++ b).
Proof.
  intros Ha Hb. apply follows_app. split; [exact Ha|].
  apply (follows_mono b []); [intros request []|exact Hb].
Qed.

(** What [follows] says, by positions. *)
Lemma follows_positions msgs : forall seen,
  follows seen msgs ->
  forall i request r,
    msgs !! i = Some (MsgToolResult request r) ->
    callId request = res_callId r
    /\ (In request seen
        \/ exists j, (j < i)%nat /\ msgs !! j = Some (MsgToolCallRequest request)).
Proof.
  induction msgs as [|m msgs IH]; intros seen Hf i request r Hi; [discriminate|].
  destruct i as [|i].
  - simpl in Hi. inversion Hi; subst m. simpl in Hf.
    destruct Hf as [[Hin Hid] _]. auto.
  - simpl in Hi.
    assert (Hrest : exists seen', follows seen' msgs
              /\ forall q, In q seen' -> In q seen \/ m = MsgToolCallRequest q).
    { destruct m; simpl in Hf; try (exists seen; split; [tauto | auto]).
      exists (request0 :: seen). split; [exact Hf|].
      intros q [->|Hq]; auto. }
    destruct Hrest as (seen' & Hf' & Hseen').
    destruct (IH seen' Hf' i request r Hi) as [Hid [Hin | (j & Hj & Hm)]].
    + split; [exact Hid|]. destruct (Hseen' _ Hin) as [Hs | ->]; [now left|].
      right. exists O. split; [lia | reflexivity].
    + split; [exact Hid|]. right. exists (S j). split; [lia | exact Hm].
Qed.

Lemma follows_results_follow_requests msgs :
  follows [] msgs -> results_follow_requests msgs.
Proof.
  intros Hf i request r Hi.
  destruct (follows_positions msgs [] Hf i request r Hi) as [Hid [[] | Hj]].
  split; [exact Hid | exact Hj].
Qed.

Lemma follows_stream_messages prompt_id events : forall seen,
  follows seen (messages_of_events prompt_id events).
Proof.
  induction events as [|event events IH]; intros seen; simpl; [exact I|].
  destruct event; simpl; apply IH.
Qed.

Lemma announced_stream_messages prompt_id events : forall seen request,
  In request (requests_of events) ->
  In request (announced (messages_of_events prompt_id events) seen).
Proof.
  induction events as [|event events IH]; intros seen request Hin; [destruct Hin|].
  expand messages_of_events in Hin. expand messages_of_events in IH.
  expand messages_of_events. unfold requests_of in Hin, IH |- *.
  simpl in Hin |- *.
  rewrite announced_app. apply in_app_or in Hin. destruct Hin as [Hin | Hin].
  - apply announced_mono. destruct event; simpl in Hin; try contradiction.
    destruct Hin as [-> | []]. simpl. now left.
  - now apply IH.
Qed.

Lemma find_request_some toolCallRequests id request :
  find_request toolCallRequests id = Some request ->
  In request toolCallRequests /\ callId request = id.
Proof.
  intros H. apply find_some in H. destruct H as [Hin Heq].
  split; [exact Hin | now apply String.eqb_eq].
Qed.

Lemma follows_inform_messages toolCallRequests toolResults seen :
  (forall request, In request toolCallRequests -> In request seen) ->
  follows seen (inform_messages toolCallRequests toolResults).
Proof.
  intros Hseen. induction toolResults as [|r rest IH]; simpl; [exact I|].
  unfold inform_messages in IH |- *. simpl.
  destruct (find_request toolCallRequests (res_callId r)) as [request|] eqn:Hfind;
    simpl; [|exact IH].
  apply find_request_some in Hfind. destruct Hfind as [Hin Hid].
  split; [split; auto | exact IH].
Qed.

(** The messages of one pass: those of the stream's events, then those
    about the results. *)
Lemma follows_pass prompt_id events toolResults :
  follows [] (messages_of_events prompt_id events
              ++ inform_messages (requests_of events) toolResults).
Proof.
  apply follows_app. split; [apply follows_stream_messages|].
  apply follows_inform_messages. intros request.
  apply announced_stream_messages.
Qed.

(** ** One pass of the loop *)

(** The loop with a callback of the caller's, and with the recording
    one. *)
Local Abbreviation loop_body_calling := (@loop_body W JSON_stringify Math_random).
Local Abbreviation while_true_calling := (@while_true W JSON_stringify Math_random).
Local Abbreviation streamQuery_calling :=
  (@streamQuery_with W getErrorMessage JSON_stringify Math_random).

Local Abbreviation inform := (@inform W recording).
Local Abbreviation loop_body := (@loop_body W JSON_stringify Math_random recording config).
Local Abbreviation while_true := (@while_true W JSON_stringify Math_random recording config).
Local Abbreviation streamQuery_with :=
  (@streamQuery_with W getErrorMessage JSON_stringify Math_random recording config).
Local Abbreviation streamQuery :=
  (@streamQuery W isBinary getErrorMessage JSON_stringify
     ShellExecutionService_execute Math_random recording config).

Local Abbreviation opened := (@opened W JSON_stringify).

Lemma inform_run toolCallRequests toolResults : forall s : St,
  inform toolCallRequests toolResults s
  = (Ok tt, emit s (inform_messages toolCallRequests toolResults)).
Proof.
  induction toolResults as [|r rest IH]; intros s; simpl.
  - unfold ret. now rewrite emit_nil.
  - unfold inform_messages in IH |- *. simpl.
    destruct (find_request toolCallRequests (res_callId r)) as [request|].
    + unfold bind. rewrite callback_run, IH, emit_emit. reflexivity.
    + apply IH.
Qed.

Lemma loop_body_run scheduler geminiClient currentPrompt (s : St)
    sessionId w1 random w2 stream w3 :
  getSessionId config (world s) = (Ok sessionId, w1) ->
  Math_random w1 = (Ok random, w2) ->
  sendMessageStream geminiClient currentPrompt
    (sessionId +:+ "########" +:+ random) w2 = (Ok stream, w3) ->
  loop_body scheduler geminiClient currentPrompt s
  = let s2 := opened s currentPrompt (sessionId +:+ "########" +:+ random) w3 stream in
    match stream_failure stream with
    | Some e => (Throw e, s2)
    | None =>
        match requests_of (stream_events stream) with
        | [] => (Ok Break, s2)
        | toolCallRequests =>
            match scheduler toolCallRequests s2 with
            | (Ok toolResults, s3) =>
                (Ok (Next (toolResponseParts toolCallRequests toolResults)),
                 emit s3 (inform_messages toolCallRequests toolResults))
            | (Throw e, s3) => (Throw e, s3)
            end
        end
    end.
Proof.
  intros Hid Hrnd Hsend. expand loop_body.
  rewrite (bind_ok _ _ _ _ _ (call_ok _ _ _ _ _ Hid)).
  erewrite bind_ok by (apply call_ok; simpl; exact Hrnd).
  erewrite bind_ok by (apply call_ok; simpl; exact Hsend).
  unfold bind at 1. rewrite processStream_run. simpl.
  unfold opened. simpl. rewrite <- !app_assoc. simpl.
  destruct (stream_failure stream) as [e|]; [reflexivity|].
  destruct (requests_of (stream_events stream)) as [|request requests];
    [reflexivity|].
  unfold bind.
  match goal with |- context [scheduler ?l ?st] =>
    destruct (scheduler l st) as [[toolResults|e] s3] end; [|reflexivity].
  rewrite inform_run. reflexivity.
Qed.

(** What any pass adds to the messages: the messages of some events,
    then the messages about some results for the requests among them. *)
Lemma loop_body_sent scheduler geminiClient currentPrompt (s : St) :
  silent scheduler ->
  exists prompt_id events toolResults,
    sent (snd (loop_body scheduler geminiClient currentPrompt s))
    = sent s ++ messages_of_events prompt_id events
             ++ inform_messages (requests_of events) toolResults.
Proof.
  intros Hsilent.
  assert (Hnone : forall s' : St, sent s' = sent s ->
            exists prompt_id events toolResults,
              sent s' = sent s ++ messages_of_events prompt_id events
                          ++ inform_messages (requests_of events) toolResults).
  { intros s' ->. exists "", [], []. simpl. now rewrite app_nil_r. }
  destruct (getSessionId config (world s)) as [[sessionId|e] w1] eqn:Hid.
  2:{ expand loop_body.
      rewrite (bind_throw _ _ _ _ _ (call_throw _ _ _ _ _ Hid)).
      now apply Hnone. }
  destruct (Math_random w1) as [[random|e] w2] eqn:Hrnd.
  2:{ expand loop_body.
      rewrite (bind_ok _ _ _ _ _ (call_ok _ _ _ _ _ Hid)).
      erewrite bind_throw by (apply call_throw; simpl; exact Hrnd).
      now apply Hnone. }
  destruct (sendMessageStream geminiClient currentPrompt
              (sessionId +:+ "########" +:+ random) w2)
    as [[stream|e] w3] eqn:Hsend.
  2:{ expand loop_body.
      rewrite (bind_ok _ _ _ _ _ (call_ok _ _ _ _ _ Hid)).
      erewrite bind_ok by (apply call_ok; simpl; exact Hrnd).
      erewrite bind_throw by (apply call_throw; simpl; exact Hsend).
      now apply Hnone. }
  rewrite (loop_body_run _ _ _ _ _ _ _ _ _ _ Hid Hrnd Hsend). cbv zeta.
  exists (sessionId +:+ "########" +:+ random), (stream_events stream).
  assert (Hstream : forall toolResults,
            toolResults = [] ->
            sent (opened s currentPrompt (sessionId +:+ "########" +:+ random) w3 stream)
            = sent s ++ messages_of_events (sessionId +:+ "########" +:+ random)
                          (stream_events stream)
                ++ inform_messages (requests_of (stream_events stream)) toolResults).
  { intros ? ->. simpl. now rewrite app_nil_r. }
  destruct (stream_failure stream) as [e|]; [exists []; now apply Hstream|].
  destruct (requests_of (stream_events stream)) as [|request requests] eqn:Hreqs;
    [exists []; now apply Hstream|].
  pose proof (Hsilent (request :: requests)
                (opened s currentPrompt (sessionId +:+ "########" +:+ random) w3 stream))
    as Hs.
  destruct (scheduler (request :: requests) _) as [[toolResults|e] s3]; simpl in Hs.
  - exists toolResults. simpl. rewrite Hs. simpl. now rewrite <- app_assoc.
  - exists []. simpl. rewrite Hs. simpl. now rewrite app_nil_r.
Qed.

(** ** The loop *)

Lemma while_true_sent scheduler geminiClient (fuel : nat) :
  silent scheduler ->
  forall currentPrompt (s : St),
  exists new,
    sent (snd (while_true scheduler geminiClient fuel currentPrompt s)) = sent s ++ new
    /\ follows [] new.
Proof.
  intros Hsilent. induction fuel as [|fuel IH]; intros currentPrompt s; simpl.
  - exists []. split; [now rewrite app_nil_r | exact I].
  - destruct (loop_body_sent scheduler geminiClient currentPrompt s Hsilent)
      as (prompt_id & events & toolResults & Hsent).
    pose proof (follows_pass prompt_id events toolResults) as Hpass.
    destruct (loop_body scheduler geminiClient currentPrompt s) as [[[|next]|e] s'];
      simpl in Hsent; simpl; try (eexists; split; [exact Hsent | exact Hpass]).
    destruct (IH next s') as (new & Hnew & Hfollows).
    eexists. split; [rewrite Hnew, Hsent, <- app_assoc; reflexivity|].
    now apply follows_concat.
Qed.

(** Further passes do not change how a call that has left the loop
    ended, whatever the callback is. *)

Lemma while_true_more bot scheduler geminiClient (fuel : nat) :
  forall currentPrompt (s : St) outcome s',
    while_true_calling bot config scheduler geminiClient fuel currentPrompt s = (outcome, s') ->
    outcome <> Running ->
    forall fuel', (fuel <= fuel')%nat ->
      while_true_calling bot config scheduler geminiClient fuel' currentPrompt s = (outcome, s').
Proof.
  induction fuel as [|fuel IH]; intros currentPrompt s outcome s' H Hleft fuel' Hle.
  - simpl in H. inversion H; subst. contradiction.
  - destruct fuel' as [|fuel']; [lia|]. simpl in H |- *.
    destruct (loop_body_calling bot config scheduler geminiClient currentPrompt s)
      as [[[|next]|e] s1]; try exact H.
    apply (IH next s1 outcome s' H Hleft). lia.
Qed.

(** ** streamQuery *)

Lemma execute_silent : silent execute.
Proof.
  assert (Hcall : forall A c (f : Effect A) (s : St), sent (snd (call c f s)) = sent s).
  { intros A c f s. unfold call. now destruct (f (world s)). }
  assert (Hbind : forall A B (m : M A) (k : A -> M B),
            (forall s, sent (snd (m s)) = sent s) ->
            (forall a s, sent (snd (k a s)) = sent s) ->
            forall s, sent (snd (bind m k s)) = sent s).
  { intros A B m k Hm Hk s. unfold bind. specialize (Hm s).
    destruct (m s) as [[a|e] s1]; simpl in Hm |- *; [now rewrite Hk | exact Hm]. }
  assert (Hcatch : forall A (m : M A) h,
            (forall s, sent (snd (m s)) = sent s) ->
            (forall e s, sent (snd (h e s)) = sent s) ->
            forall s, sent (snd (try_catch m h s)) = sent s).
  { intros A m h Hm Hh s. unfold try_catch. specialize (Hm s).
    destruct (m s) as [[a|e] s1]; simpl in Hm |- *; [exact Hm | now rewrite Hh]. }
  assert (Htool : forall n what norm params (s : St),
            sent (snd (registry_tool n what norm params s)) = sent s).
  { intros n what norm params. expand registry_tool.
    apply Hbind; [apply Hcall|]. intros reg. apply Hbind; [apply Hcall|].
    intros [tool|] s; [|reflexivity]. revert s.
    apply Hcatch; [|reflexivity]. apply Hbind; [apply Hcall|].
    intros invocation. apply Hbind; [apply Hcall|]. reflexivity. }
  assert (Hswitch : forall request (s : St),
            sent (snd (execute_switch request s)) = sent s).
  { intros request. expand execute_switch.
    repeat match goal with
    | |- context [if ?b then _ else _] => destruct b
    end; try apply Htool; try reflexivity.
    expand runShellCommand.
    destruct (negb (js_truthy _)); [reflexivity|].
    apply Hbind; [apply Hcall|]. intros cwd. apply Hbind; [apply Hcall|].
    reflexivity. }
  assert (Hfrom : forall requests results (s : St),
            sent (snd (execute_from requests results s)) = sent s).
  { induction requests as [|request rest IH]; intros results; simpl;
      [reflexivity|].
    apply Hbind; [|intros r; apply IH].
    expand execute_one. apply Hbind; [|reflexivity].
    apply Hcatch; [apply Hswitch|].
    intros e s. now destruct (message_of e). }
  intros requests s. apply Hfrom.
Qed.

(** C2: among the messages that a call of [streamQuery] hands over, after
    any number of passes and whatever the scheduler returns (as long as
    it does not use the callback itself), every [tool_result] message is
    preceded by the [tool_call_request] message for its request, which has
    the result's callId.  In a pass whose stream yields one
    [tool_call_request] and then [finished], and in which the scheduler
    returns one result for that request, the messages handed over are
    [tool_call_request], [finished], [tool_result], in this order. *)
Theorem tool_result_after_its_request
    (scheduler : list ToolCallRequestInfo -> M (list ToolResult)) :
  silent scheduler ->
  (forall fuel prompt (s : St),
     exists new,
       sent (snd (streamQuery_with scheduler fuel prompt s)) = sent s ++ new
       /\ results_follow_requests new)
  /\ (forall geminiClient currentPrompt (s : St) sessionId w1 random w2 w3
        request reason r s3,
        getSessionId config (world s) = (Ok sessionId, w1) ->
        Math_random w1 = (Ok random, w2) ->
        sendMessageStream geminiClient currentPrompt
          (sessionId +:+ "########" +:+ random) w2
        = (Ok (stream_of_list [EvToolCallRequest request; EvFinished reason]), w3) ->
        scheduler [request]
          (opened s currentPrompt (sessionId +:+ "########" +:+ random) w3
             (stream_of_list [EvToolCallRequest request; EvFinished reason]))
        = (Ok [r], s3) ->
        res_callId r = callId request ->
        exists next s',
          loop_body scheduler geminiClient currentPrompt s = (Ok (Next next), s')
          /\ sent s'
             = sent s ++ [ MsgToolCallRequest request;
                           MsgFinished reason (sessionId +:+ "########" +:+ random);
                           MsgToolResult request r ]).
Proof.
  intros Hsilent. split.
  - intros fuel prompt s. expand streamQuery_with.
    destruct (getGeminiClient config) as [geminiClient|].
    2:{ exists []. split; [simpl; now rewrite app_nil_r|].
        intros i request r Hi. destruct i; discriminate. }
    destruct (while_true_sent scheduler geminiClient fuel Hsilent prompt s)
      as (new & Hnew & Hfollows).
    destruct (while_true scheduler geminiClient fuel prompt s) as [[|e|] s'];
      simpl in Hnew |- *.
    + exists new. split; [exact Hnew | now apply follows_results_follow_requests].
    + exists (new ++ [MsgError (getErrorMessage e)]). split.
      * rewrite Hnew. now rewrite <- app_assoc.
      * apply follows_results_follow_requests, follows_concat; simpl; auto.
    + exists new. split; [exact Hnew | now apply follows_results_follow_requests].
  - intros geminiClient currentPrompt s sessionId w1 random w2 w3
      request reason r s3 Hid Hrnd Hsend Hsched Hr.
    rewrite (loop_body_run _ _ _ _ _ _ _ _ _ _ Hid Hrnd Hsend). cbv zeta.
    rewrite stream_of_list_failure, stream_of_list_events.
    change (requests_of [EvToolCallRequest request; EvFinished reason])
      with [request].
    pose proof (Hsilent [request]
      (opened s currentPrompt (sessionId +:+ "########" +:+ random) w3
         (stream_of_list [EvToolCallRequest request; EvFinished reason]))) as Hs.
    cbv iota. rewrite Hsched in Hs |- *. simpl in Hs.
    eexists _, _. split; [reflexivity|].
    simpl. rewrite Hs. unfold inform_messages, find_request. simpl.
    rewrite Hr, String.eqb_refl. simpl. now rewrite <- app_assoc.
Qed.

(** C5: when the configuration has a client, whatever the model, the
    scheduler and the callback do, a failure that leaves the loop (one
    of the callback included) is caught and handed to the callback as
    one [error] message, the last message of the call: the call then
    returns if the callback returns, and throws what the callback throws
    there; a call that leaves the loop at [break] returns as it is.  So
    with a callback that returns whenever it is handed an [error]
    message, [streamQuery] throws nothing.  (Without a client the guard
    in front of the [try] throws.) *)
Theorem loop_failure_is_reported
    (bot : BotMessage -> Effect unit)
    (scheduler : list ToolCallRequestInfo -> M (list ToolResult))
    (geminiClient : GeminiClient) :
  getGeminiClient config = Some geminiClient ->
  (forall fuel prompt (s : St) e s',
     while_true_calling bot config scheduler geminiClient fuel prompt s = (Throws e, s') ->
     forall fuel', (fuel <= fuel')%nat ->
       streamQuery_calling bot config scheduler fuel' prompt s
       = match bot (MsgError (getErrorMessage e)) (world s') with
         | (Ok _, w) =>
             (Returns,
              {| world := w; calls := calls s';
                 sent := sent s' ++ [MsgError (getErrorMessage e)] |})
         | (Throw e', w) =>
             (Throws e',
              {| world := w; calls := calls s';
                 sent := sent s' ++ [MsgError (getErrorMessage e)] |})
         end)
  /\ (forall fuel prompt (s : St) s',
        while_true_calling bot config scheduler geminiClient fuel prompt s = (Returns, s') ->
        forall fuel', (fuel <= fuel')%nat ->
          streamQuery_calling bot config scheduler fuel' prompt s = (Returns, s'))
  /\ ((forall text w, exists w', bot (MsgError text) w = (Ok tt, w')) ->
      forall fuel prompt (s : St) e,
        fst (streamQuery_calling bot config scheduler fuel prompt s) <> Throws e)
  /\ (forall prompt (s : St) sessionId w1 random w2 e w3 w4,
        getSessionId config (world s) = (Ok sessionId, w1) ->
        Math_random w1 = (Ok random, w2) ->
        sendMessageStream geminiClient prompt
          (sessionId +:+ "########" +:+ random) w2 = (Throw e, w3) ->
        bot (MsgError (getErrorMessage e)) w3 = (Ok tt, w4) ->
        forall fuel,
          streamQuery_calling bot config scheduler (S fuel) prompt s
          = (Returns,
             {| world := w4;
                calls := calls s ++
                  [CallGetSessionId; CallRandom;
                   CallSendMessageStream prompt (sessionId +:+ "########" +:+ random)];
                sent := sent s ++ [MsgError (getErrorMessage e)] |})).
Proof.
  intros Hclient. split; [|split; [|split]].
  - intros fuel prompt s e s' Hloop fuel' Hle.
    expand streamQuery_calling. rewrite Hclient.
    rewrite (while_true_more _ _ _ _ _ _ _ _ Hloop ltac:(discriminate) fuel' Hle).
    expand callback.
    destruct (bot (MsgError (getErrorMessage e)) (world s')) as [[[]|e'] w];
      reflexivity.
  - intros fuel prompt s s' Hloop fuel' Hle.
    expand streamQuery_calling. rewrite Hclient.
    rewrite (while_true_more _ _ _ _ _ _ _ _ Hloop ltac:(discriminate) fuel' Hle).
    reflexivity.
  - intros Hbot fuel prompt s e. expand streamQuery_calling. rewrite Hclient.
    destruct (while_true_calling bot config scheduler geminiClient fuel prompt s)
      as [[|e'|] s']; simpl; try discriminate.
    expand callback.
    destruct (Hbot (getErrorMessage e') (world s')) as [w' Hw]. rewrite Hw.
    discriminate.
  - intros prompt s sessionId w1 random w2 e w3 w4 Hid Hrnd Hsend Hbot fuel.
    expand streamQuery_calling. rewrite Hclient. simpl.
    expand loop_body_calling.
    rewrite (bind_ok _ _ _ _ _ (call_ok _ _ _ _ _ Hid)).
    erewrite bind_ok by (apply call_ok; simpl; exact Hrnd).
    erewrite bind_throw by (apply call_throw; simpl; exact Hsend).
    expand callback. simpl. rewrite Hbot. simpl. now rewrite <- !app_assoc.
Qed.




(** C10: after the scheduler has returned, a result whose callId is that
    of none of the pass's requests gets no [tool_result] message, and the
    next prompt still has a function-response part for it, at the
    result's position, with the empty string as name and the result's
    text as content; a result whose callId is that of a request gets a
    [tool_result] message with that request, and its part carries the
    request's name and the result's text. *)
Theorem unmatched_result_has_no_message
    (scheduler : list ToolCallRequestInfo -> M (list ToolResult))
    (geminiClient : GeminiClient) (currentPrompt : PartListUnion) (s : St)
    sessionId w1 random w2 stream w3 toolResults s3 :
  getSessionId config (world s) = (Ok sessionId, w1) ->
  Math_random w1 = (Ok random, w2) ->
  sendMessageStream geminiClient currentPrompt
    (sessionId +:+ "########" +:+ random) w2 = (Ok stream, w3) ->
  stream_failure stream = None ->
  requests_of (stream_events stream) <> [] ->
  scheduler (requests_of (stream_events stream))
    (opened s currentPrompt (sessionId +:+ "########" +:+ random) w3 stream)
  = (Ok toolResults, s3) ->
  let toolCallRequests := requests_of (stream_events stream) in
  let parts := map (toolResponsePart toolCallRequests) toolResults in
  loop_body scheduler geminiClient currentPrompt s
  = (Ok (Next (PLMany parts)),
     emit s3 (inform_messages toolCallRequests toolResults))
  /\ forall i r, toolResults !! i = Some r ->
       match find_request toolCallRequests (res_callId r) with
       | None =>
           (forall request, In request toolCallRequests ->
                            callId request <> res_callId r)
           /\ (forall request' r',
                 In (MsgToolResult request' r')
                    (inform_messages toolCallRequests toolResults) ->
                 res_callId r' <> res_callId r)
           /\ parts !! i
              = Some (PUPart (PartFunctionResponse
                  {| functionResponse_name := "";
                     response := {| response_name := "";
                                    response_content := result r |} |}))
       | Some request =>
           In request toolCallRequests /\ callId request = res_callId r
           /\ In (MsgToolResult request r)
                 (inform_messages toolCallRequests toolResults)
           /\ parts !! i
              = Some (PUPart (PartFunctionResponse
                  {| functionResponse_name := name request;
                     response := {| response_name := name request;
                                    response_content := result r |} |}))
       end.
Proof.
  intros Hid Hrnd Hsend Hend Hsome Hsched toolCallRequests parts.
  split.
  - rewrite (loop_body_run _ _ _ _ _ _ _ _ _ _ Hid Hrnd Hsend). cbv zeta.
    rewrite Hend. fold toolCallRequests in Hsome, Hsched |- *.
    destruct toolCallRequests as [|request requests]; [contradiction|].
    now rewrite Hsched.
  - intros i r Hi.
    assert (Hpart : parts !! i = Some (toolResponsePart toolCallRequests r))
      by (unfold parts; rewrite list_lookup_fmap, Hi; reflexivity).
    rewrite Hpart. unfold toolResponsePart, original_name.
    destruct (find_request toolCallRequests (res_callId r)) as [request|] eqn:Hfind.
    + destruct (find_request_some _ _ _ Hfind) as [Hin Hcid].
      split; [exact Hin|]. split; [exact Hcid|]. split.
      * unfold inform_messages. apply in_flat_map. exists r. split.
        -- apply list_elem_of_In. apply list_elem_of_lookup. now exists i.
        -- rewrite Hfind. now left.
      * now rewrite js_or_empty.
    + split; [|split; [|reflexivity]].
      * intros request Hin Hcid.
        pose proof (find_none _ _ Hfind request Hin) as Hneq.
        simpl in Hneq. apply String.eqb_neq in Hneq. contradiction.
      * intros request' r' Hin' Hcid.
        unfold inform_messages in Hin'. apply in_flat_map in Hin'.
        destruct Hin' as (r0 & _ & Hin0).
        destruct (find_request toolCallRequests (res_callId r0)) as [q|] eqn:Hq;
          [|destruct Hin0].
        destruct Hin0 as [Heq | []]. inversion Heq; subst q r0.
        rewrite Hcid in Hq. rewrite Hq in Hfind. discriminate.
Qed.

(* ===================================================================== *)
(** * Further properties of the tool scheduler *)
(* ===================================================================== *)

(** X1: requests are handled one after the other: the results for a list
    in two parts are those of the first part followed by those of the
    second, which is run from the state that the first part leaves. *)
Theorem execute_concat (before rest : list ToolCallRequestInfo)
    (s : St) rs1 s1 rs2 s2 :
  execute before s = (Ok rs1, s1) ->
  execute rest s1 = (Ok rs2, s2) ->
  execute (before ++ rest) s = (Ok (rs1 ++ rs2), s2).
Proof.
  intros H1 H2. expand execute in H1. expand execute in H2. expand execute.
  rewrite execute_from_app, (bind_ok _ _ _ _ _ H1).
  destruct (execute_from_ok _ _ _ _ _ H2) as (rs & Heq & _ & Hany).
  simpl in Heq. subst rs2. apply Hany.
Qed.

(** The loop's body throws only the [TypeError] of its [catch], when
    the [switch] has thrown [undefined] or [null]. *)
Lemma execute_one_throws (request : ToolCallRequestInfo) (s : St) e s' :
  execute_one request s = (Throw e, s') ->
  exists value,
    (value = JUndefined \/ value = JNull)
    /\ execute_switch request s = (Throw (ThrownValue value), s')
    /\ e = ThrownError
             {| message := "Cannot read properties of " +:+ js_String value
                             +:+ " (reading 'message')" |}.
Proof.
  destruct (execute_switch request s) as [[text|thrown] s1] eqn:Hsw.
  - rewrite (execute_one_of_switch _ _ _ _ Hsw). discriminate.
  - rewrite (execute_one_of_throw _ _ _ _ Hsw).
    destruct thrown as [error|[| |b|n|str|items|fields]]; simpl;
      try discriminate; intros H; inversion H; subst.
    + exists JUndefined. split; [now left|]. split; reflexivity.
    + exists JNull. split; [now right|]. split; reflexivity.
Qed.

Lemma execute_from_throws (requests : list ToolCallRequestInfo) :
  forall (results : list ToolResult) (s : St) e s',
    execute_from requests results s = (Throw e, s') ->
    exists before request rest rs s1 value,
      requests = before ++ request :: rest
      /\ execute_from before results s = (Ok (results ++ rs), s1)
      /\ (value = JUndefined \/ value = JNull)
      /\ execute_switch request s1 = (Throw (ThrownValue value), s')
      /\ e = ThrownError
               {| message := "Cannot read properties of " +:+ js_String value
                               +:+ " (reading 'message')" |}.
Proof.
  induction requests as [|request rest IH]; intros results s e s' H.
  - discriminate H.
  - simpl in H. unfold bind in H.
    destruct (execute_one request s) as [[r|e1] s1] eqn:H1.
    + destruct (IH _ _ _ _ H)
        as (before & q & after & rs & s2 & value & -> & Hbefore & Hv & Hsw & He).
      exists (request :: before), q, after, (r :: rs), s2, value.
      split; [reflexivity|]. split; [|auto].
      simpl. rewrite (bind_ok _ _ _ _ _ H1). rewrite Hbefore.
      now rewrite <- app_assoc.
    + inversion H; subst e1 s1.
      destruct (execute_one_throws _ _ _ _ H1) as (value & Hv & Hsw & He).
      exists [], request, rest, [], s, value.
      split; [reflexivity|]. split; [|auto].
      simpl. unfold ret. now rewrite app_nil_r.
Qed.

(** X27: when [execute] returns, it returns exactly one result per
    request, in the order of the requests, the i-th result carrying the
    callId of the i-th request.  It throws only when, at some request
    and outside the tools' own [try] blocks, a collaborator has thrown
    [undefined] or [null]: what [execute] throws then is the [TypeError]
    of reading the [message] of that value, and the results of the
    requests before are lost. *)
Theorem execute_returns_one_result_per_request
    (requests : list ToolCallRequestInfo) (s : St) :
  match execute requests s with
  | (Ok results, _) =>
      length results = length requests
      /\ map res_callId results = map callId requests
      /\ forall i request, requests !! i = Some request ->
           exists r, results !! i = Some r /\ res_callId r = callId request
  | (Throw e, s') =>
      exists before request rest rs s1 value,
        requests = before ++ request :: rest
        /\ execute before s = (Ok rs, s1)
        /\ (value = JUndefined \/ value = JNull)
        /\ execute_switch request s1 = (Throw (ThrownValue value), s')
        /\ e = ThrownError
                 {| message := "Cannot read properties of " +:+ js_String value
                                 +:+ " (reading 'message')" |}
  end.
Proof.
  destruct (execute requests s) as [[results|e] s'] eqn:Hexec.
  - pose proof (execute_ok _ _ _ _ Hexec) as Hids.
    split; [|split; [exact Hids|]].
    + rewrite <- (length_map res_callId), Hids. apply length_map.
    + intros i request Hi.
      assert (Hm : map callId requests !! i = Some (callId request))
        by (rewrite list_lookup_fmap, Hi; reflexivity).
      rewrite <- Hids, list_lookup_fmap in Hm.
      destruct (results !! i) as [r|]; [|discriminate].
      exists r. split; [reflexivity|]. now inversion Hm.
  - expand execute in Hexec.
    destruct (execute_from_throws _ _ _ _ _ Hexec)
      as (before & request & rest & rs & s1 & value & Hreq & Hbefore & Hv & Hsw & He).
    exists before, request, rest, rs, s1, value. auto.
Qed.

Lemma scheduler_step_refl (s : St) : scheduler_step s s.
Proof. split; [reflexivity|]. exists []. now rewrite app_nil_r. Qed.

Lemma scheduler_step_trans (s1 s2 s3 : St) :
  scheduler_step s1 s2 -> scheduler_step s2 s3 -> scheduler_step s1 s3.
Proof.
  intros [Hs1 (n1 & Hc1 & Hn1)] [Hs2 (n2 & Hc2 & Hn2)]. split; [congruence|].
  exists (n1 ++ n2). split.
  - rewrite Hc2, Hc1. now rewrite <- app_assoc.
  - rewrite forallb_app, Hn1, Hn2. reflexivity.
Qed.

Lemma scheduler_step_call {A} (c : Call) (f : Effect A) (s : St) :
  is_scheduler_call c = true -> scheduler_step s (snd (call c f s)).
Proof.
  intros Hc. unfold call. destruct (f (world s)) as [r w]. simpl.
  split; [reflexivity|]. exists [c]. split; [reflexivity|]. simpl. now rewrite Hc.
Qed.

Lemma scheduler_step_bind {A B} (m : M A) (k : A -> M B) :
  (forall s, scheduler_step s (snd (m s))) ->
  (forall a s, scheduler_step s (snd (k a s))) ->
  forall s, scheduler_step s (snd (bind m k s)).
Proof.
  intros Hm Hk s. unfold bind. specialize (Hm s).
  destruct (m s) as [[a|e] s1]; simpl in Hm |- *; [|exact Hm].
  exact (scheduler_step_trans _ _ _ Hm (Hk a s1)).
Qed.

Lemma scheduler_step_try_catch {A} (m : M A) h :
  (forall s, scheduler_step s (snd (m s))) ->
  (forall e s, scheduler_step s (snd (h e s))) ->
  forall s, scheduler_step s (snd (try_catch m h s)).
Proof.
  intros Hm Hh s. unfold try_catch. specialize (Hm s).
  destruct (m s) as [[a|e] s1]; simpl in Hm |- *; [exact Hm|].
  exact (scheduler_step_trans _ _ _ Hm (Hh e s1)).
Qed.

Lemma scheduler_step_switch (request : ToolCallRequestInfo) (s : St) :
  scheduler_step s (snd (execute_switch request s)).
Proof.
  assert (Hret : forall (text : string) (s : St),
            scheduler_step s (snd (ret text s)))
    by (intros; apply scheduler_step_refl).
  assert (Htool : forall n what norm params (s : St),
            scheduler_step s (snd (registry_tool n what norm params s))).
  { intros n what norm params. expand registry_tool.
    apply scheduler_step_bind; [intros; now apply scheduler_step_call|].
    intros reg. apply scheduler_step_bind; [intros; now apply scheduler_step_call|].
    intros [tool|]; [|apply Hret].
    apply scheduler_step_try_catch; [|intros; apply Hret].
    apply scheduler_step_bind; [intros; now apply scheduler_step_call|].
    intros invocation.
    apply scheduler_step_bind; [intros; now apply scheduler_step_call|].
    intros out. apply Hret. }
  revert s. expand execute_switch.
  repeat match goal with
  | |- context [if ?b then _ else _] => destruct b
  end; try apply Htool; try apply Hret.
  expand runShellCommand.
  destruct (negb (js_truthy _)); [apply Hret|].
  apply scheduler_step_bind; [intros; now apply scheduler_step_call|].
  intros cwd. apply scheduler_step_bind; [intros; now apply scheduler_step_call|].
  intros r. apply Hret.
Qed.

(** X2: the scheduler keeps to its own collaborators: running any list
    of requests leaves the messages handed to the callback as they were,
    keeps the calls logged before, and adds only calls to the registry,
    to tools, for the target directory and to the shell service (none to
    the model client, the session id or the random source). *)
Theorem execute_keeps_to_its_collaborators
    (requests : list ToolCallRequestInfo) (s : St) :
  sent (snd (execute requests s)) = sent s
  /\ exists new,
       calls (snd (execute requests s)) = calls s ++ new
       /\ forall c, In c new -> is_scheduler_call c = true.
Proof.
  assert (Hfrom : forall requests results (s : St),
            scheduler_step s (snd (execute_from requests results s))).
  { clear requests s. induction requests as [|request rest IH]; intros results;
      simpl; [intros; apply scheduler_step_refl|].
    apply scheduler_step_bind; [|intros r; apply IH].
    expand execute_one.
    apply scheduler_step_bind; [|intros; apply scheduler_step_refl].
    apply scheduler_step_try_catch; [apply scheduler_step_switch|].
    intros e s. destruct (message_of e); apply scheduler_step_refl. }
  destruct (Hfrom requests [] s) as [Hsent (new & Hcalls & Hnew)].
  split; [exact Hsent|]. exists new. split; [exact Hcalls|].
  intros c Hc. rewrite forallb_forall in Hnew. now apply Hnew.
Qed.

Lemma execute_switch_registry_words (request : ToolCallRequestInfo) :
  In (name request) registry_tools ->
  exists what,
    In (name request, what) tool_words
    /\ execute_switch request
       = registry_tool (name request) what
           (if String.eqb (name request) "read_many_files"
            then readManyFiles_normalize else toString_or_empty)
           (args request).
Proof.
  expand execute_switch.
  intros [H | [H | [H | [H | []]]]]; rewrite <- H; simpl; eexists;
    (split; [|reflexivity]); simpl; auto 6.
Qed.

(** X3: a failure of a registry tool, raised when its invocation is
    built or when it is executed, is reported by the tool's own text
    "[ERROR] Error <what the tool was doing>: <error message>"; the
    requests after it are handled as they would be on their own from
    then on, and each that is handled has one result. *)
Theorem tool_failure_is_reported_in_its_text
    (before : list ToolCallRequestInfo) (request : ToolCallRequestInfo)
    (rest : list ToolCallRequestInfo) (s0 : St) rs (s : St)
    reg w1 tool w2 e w3 :
  execute before s0 = (Ok rs, s) ->
  In (name request) registry_tools ->
  getToolRegistry config (world s) = (Ok reg, w1) ->
  getTool reg (name request) w1 = (Ok (Some tool), w2) ->
  (build tool (args request) w2 = (Throw e, w3)
   \/ exists invocation w,
        build tool (args request) w2 = (Ok invocation, w)
        /\ invocation_execute invocation w = (Throw e, w3)) ->
  exists what s1,
    In (name request, what) tool_words
    /\ execute (before ++ [request]) s0
       = (Ok (rs ++ [ {| res_callId := callId request;
                         result := "[ERROR] Error " +:+ what +:+ ": "
                                     +:+ getErrorMessage e |} ]), s1)
    /\ execute (before ++ request :: rest) s0
       = match execute rest s1 with
         | (Ok rs', s') =>
             (Ok (rs ++ {| res_callId := callId request;
                           result := "[ERROR] Error " +:+ what +:+ ": "
                                       +:+ getErrorMessage e |} :: rs'), s')
         | (Throw e', s') => (Throw e', s')
         end
    /\ forall rs' s', execute rest s1 = (Ok rs', s') -> length rs' = length rest.
Proof.
  intros Hbefore Hin Hr Hg Hfail.
  destruct (execute_switch_registry_words request Hin) as (what & Hwords & Hsw).
  assert (Hone : exists s1,
            execute_switch request s
            = (Ok ("[ERROR] Error " +:+ what +:+ ": " +:+ getErrorMessage e), s1)).
  { rewrite Hsw. expand registry_tool.
    rewrite (bind_ok _ _ _ _ _ (call_ok _ _ _ _ _ Hr)).
    erewrite bind_ok by (apply call_ok; simpl; exact Hg).
    unfold try_catch. destruct Hfail as [Hb | (invocation & w & Hb & Hx)].
    - erewrite bind_throw by (apply call_throw; simpl; exact Hb).
      eexists. reflexivity.
    - erewrite bind_ok by (apply call_ok; simpl; exact Hb).
      erewrite bind_throw by (apply call_throw; simpl; exact Hx).
      eexists. reflexivity. }
  destruct Hone as (s1 & Hone). apply execute_one_of_switch in Hone.
  exists what, s1. split; [exact Hwords|].
  split; [exact (execute_last _ _ _ _ _ _ _ Hbefore Hone)|].
  split; [exact (execute_through _ _ rest _ _ _ _ _ Hbefore Hone)|].
  intros rs' s' Hafter.
  rewrite <- (length_map res_callId), (execute_ok _ _ _ _ Hafter). apply length_map.
Qed.

(** What the [catch] of [execute] makes of a value thrown by the
    [switch]. *)
Lemma execute_catches before request rest (s0 : St) rs (s : St) e s1 :
  execute before s0 = (Ok rs, s) ->
  execute_switch request s = (Throw e, s1) ->
  match e with
  | ThrownValue JUndefined =>
      execute (before ++ request :: rest) s0
      = (Throw (ThrownError
           {| message := "Cannot read properties of undefined (reading 'message')" |}),
         s1)
  | ThrownValue JNull =>
      execute (before ++ request :: rest) s0
      = (Throw (ThrownError
           {| message := "Cannot read properties of null (reading 'message')" |}),
         s1)
  | _ =>
      exists text,
        execute (before ++ [request]) s0
        = (Ok (rs ++ [ {| res_callId := callId request;
                          result := "[ERROR] Tool '" +:+ name request +:+ "' failed: "
                                      +:+ text |} ]), s1)
        /\ execute (before ++ request :: rest) s0
           = match execute rest s1 with
             | (Ok rs', s') =>
                 (Ok (rs ++ {| res_callId := callId request;
                               result := "[ERROR] Tool '" +:+ name request
                                           +:+ "' failed: " +:+ text |} :: rs'), s')
             | (Throw e', s') => (Throw e', s')
             end
        /\ forall error, e = ThrownError error -> text = message error
  end.
Proof.
  intros Hbefore Hsw. apply execute_one_of_throw in Hsw.
  assert (Hok : forall text,
            message_of e = inr text ->
            exists text,
              execute (before ++ [request]) s0
              = (Ok (rs ++ [ {| res_callId := callId request;
                                result := "[ERROR] Tool '" +:+ name request
                                            +:+ "' failed: " +:+ text |} ]), s1)
              /\ execute (before ++ request :: rest) s0
                 = match execute rest s1 with
                   | (Ok rs', s') =>
                       (Ok (rs ++ {| res_callId := callId request;
                                     result := "[ERROR] Tool '" +:+ name request
                                                 +:+ "' failed: " +:+ text |} :: rs'), s')
                   | (Throw e', s') => (Throw e', s')
                   end
              /\ forall error, e = ThrownError error -> text = message error).
  { intros text Htext. rewrite Htext in Hsw.
    exists text. split; [exact (execute_last _ _ _ _ _ _ _ Hbefore Hsw)|].
    split; [exact (execute_through _ _ rest _ _ _ _ _ Hbefore Hsw)|].
    intros error ->. simpl in Htext. now inversion Htext. }
  destruct e as [error|[| |b|n|str|items|fields]];
    try (eapply Hok; reflexivity);
    exact (execute_split_throw before request rest s0 rs s _ _ Hbefore Hsw).
Qed.

(** X4: a failure of the registry itself ([getToolRegistry] rejects, or
    [getTool] throws) is outside the tool's own [try]; the [catch] of
    [execute] turns it into "[ERROR] Tool '<name>' failed: <message>",
    with the message of the [Error] that was thrown.  When what was
    thrown is [undefined] or [null], the [catch] throws in its turn and
    [execute] returns nothing. *)
Theorem registry_failure_is_reported_by_execute
    (before : list ToolCallRequestInfo) (request : ToolCallRequestInfo)
    (rest : list ToolCallRequestInfo) (s0 : St) rs (s : St) e w2 :
  execute before s0 = (Ok rs, s) ->
  In (name request) registry_tools ->
  (getToolRegistry config (world s) = (Throw e, w2)
   \/ exists reg w1,
        getToolRegistry config (world s) = (Ok reg, w1)
        /\ getTool reg (name request) w1 = (Throw e, w2)) ->
  match e with
  | ThrownValue JUndefined | ThrownValue JNull =>
      exists type_error s',
        execute (before ++ request :: rest) s0 = (Throw (ThrownError type_error), s')
  | _ =>
      exists text s1,
        execute (before ++ [request]) s0
        = (Ok (rs ++ [ {| res_callId := callId request;
                          result := "[ERROR] Tool '" +:+ name request +:+ "' failed: "
                                      +:+ text |} ]), s1)
        /\ execute (before ++ request :: rest) s0
           = match execute rest s1 with
             | (Ok rs', s') =>
                 (Ok (rs ++ {| res_callId := callId request;
                               result := "[ERROR] Tool '" +:+ name request
                                           +:+ "' failed: " +:+ text |} :: rs'), s')
             | (Throw e', s') => (Throw e', s')
             end
        /\ forall error, e = ThrownError error -> text = message error
  end.
Proof.
  intros Hbefore Hin Hfail.
  destruct (execute_switch_registry_words request Hin) as (what & _ & Hsw).
  assert (Hone : exists s1, execute_switch request s = (Throw e, s1)).
  { rewrite Hsw. expand registry_tool.
    destruct Hfail as [Hr | (reg & w1 & Hr & Hg)].
    - erewrite bind_throw by (apply call_throw; exact Hr). eexists. reflexivity.
    - rewrite (bind_ok _ _ _ _ _ (call_ok _ _ _ _ _ Hr)).
      erewrite bind_throw by (apply call_throw; simpl; exact Hg).
      eexists. reflexivity. }
  destruct Hone as (s1 & Hone).
  pose proof (execute_catches before request rest s0 rs s e s1 Hbefore Hone) as H.
  destruct e as [error|[| |b|n|str|items|fields]];
    try (destruct H as (text & H); exists text, s1; exact H);
    eexists _, _; exact H.
Qed.

(** X5: when the command cannot be run at all ([getTargetDir] throws, or
    the shell service throws or rejects), the result text is "[ERROR]
    Tool 'run_shell_command' failed: <message>", with the message of the
    [Error] that was thrown.  When what was thrown is [undefined] or
    [null], the [catch] throws in its turn and [execute] returns
    nothing. *)
Theorem shell_failure_is_reported_by_execute
    (before : list ToolCallRequestInfo) (request : ToolCallRequestInfo)
    (rest : list ToolCallRequestInfo) (s0 : St) rs (s : St) e w2 :
  execute before s0 = (Ok rs, s) ->
  name request = "run_shell_command" ->
  js_truthy (js_get (args request) "command") = true ->
  (getTargetDir config (world s) = (Throw e, w2)
   \/ exists cwd w1,
        getTargetDir config (world s) = (Ok cwd, w1)
        /\ ShellExecutionService_execute (js_get (args request) "command") cwd w1
           = (Throw e, w2)) ->
  match e with
  | ThrownValue JUndefined | ThrownValue JNull =>
      exists type_error s',
        execute (before ++ request :: rest) s0 = (Throw (ThrownError type_error), s')
  | _ =>
      exists text s1,
        execute (before ++ [request]) s0
        = (Ok (rs ++ [ {| res_callId := callId request;
                          result := "[ERROR] Tool 'run_shell_command' failed: "
                                      +:+ text |} ]), s1)
        /\ execute (before ++ request :: rest) s0
           = match execute rest s1 with
             | (Ok rs', s') =>
                 (Ok (rs ++ {| res_callId := callId request;
                               result := "[ERROR] Tool 'run_shell_command' failed: "
                                           +:+ text |} :: rs'), s')
             | (Throw e', s') => (Throw e', s')
             end
        /\ forall error, e = ThrownError error -> text = message error
  end.
Proof.
  intros Hbefore Hname Htruthy Hfail.
  assert (Hone : exists s1, execute_switch request s = (Throw e, s1)).
  { expand execute_switch. rewrite Hname. simpl.
    expand runShellCommand. rewrite Htruthy. simpl.
    destruct Hfail as [Hd | (cwd & w1 & Hd & Hx)].
    - erewrite bind_throw by (apply call_throw; exact Hd). eexists. reflexivity.
    - rewrite (bind_ok _ _ _ _ _ (call_ok _ _ _ _ _ Hd)).
      erewrite bind_throw by (apply call_throw; simpl; exact Hx).
      eexists. reflexivity. }
  destruct Hone as (s1 & Hone).
  pose proof (execute_catches before request rest s0 rs s e s1 Hbefore Hone) as H.
  rewrite Hname in H.
  destruct e as [error|[| |b|n|str|items|fields]];
    try (destruct H as (text & H); exists text, s1; exact H);
    eexists _, _; exact H.
Qed.

(** X6: a command that is not empty is run once: the target directory
    is asked for, then the shell service is called with the request's
    [command] argument as it is and with that directory; nothing else is
    called, and the result carries the text for the command's outcome. *)
Theorem shell_is_called_with_command_and_target_dir
    (request : ToolCallRequestInfo) (s : St) cwd w1 r w2 :
  name request = "run_shell_command" ->
  js_truthy (js_get (args request) "command") = true ->
  getTargetDir config (world s) = (Ok cwd, w1) ->
  ShellExecutionService_execute (js_get (args request) "command") cwd w1
  = (Ok r, w2) ->
  execute [request] s
  = (Ok [ {| res_callId := callId request;
             result := shell_result_text isBinary r |} ],
     {| world := w2;
        calls := calls s ++ [CallGetTargetDir;
                             CallShellExecute (js_get (args request) "command") cwd];
        sent := sent s |}).
Proof.
  intros Hname Htruthy Hd Hx.
  assert (Hsw : execute_switch request s
                = (Ok (shell_result_text isBinary r),
                   {| world := w2;
                      calls := calls s ++ [CallGetTargetDir;
                        CallShellExecute (js_get (args request) "command") cwd];
                      sent := sent s |})).
  { expand execute_switch. rewrite Hname. simpl.
    exact (runShellCommand_run _ _ _ _ _ _ Htruthy Hd Hx). }
  apply execute_one_of_switch in Hsw.
  expand execute. simpl. rewrite (bind_ok _ _ _ _ _ Hsw). reflexivity.
Qed.

(** X7: a request for a registry tool that is found is served by four
    calls in this order: the registry is asked for, the tool is looked up
    under the request's name, its invocation is built from the request's
    arguments as they are, and the invocation is executed. *)
Theorem tool_is_built_from_the_request_args
    (request : ToolCallRequestInfo) (s : St)
    reg w1 tool w2 invocation w3 out w4 :
  In (name request) registry_tools ->
  getToolRegistry config (world s) = (Ok reg, w1) ->
  getTool reg (name request) w1 = (Ok (Some tool), w2) ->
  build tool (args request) w2 = (Ok invocation, w3) ->
  invocation_execute invocation w3 = (Ok out, w4) ->
  exists text,
    execute [request] s
    = (Ok [ {| res_callId := callId request; result := text |} ],
       {| world := w4;
          calls := calls s ++ [CallGetToolRegistry; CallGetTool (name request);
                               CallBuild (name request) (args request);
                               CallExecute (name request)];
          sent := sent s |}).
Proof.
  intros Hin Hr Hg Hb Hx.
  destruct (execute_switch_registry request Hin) as (what & Hsw).
  pose proof (registry_tool_success (name request) what
                (if String.eqb (name request) "read_many_files"
                 then readManyFiles_normalize else toString_or_empty)
                (args request) s reg w1 tool w2 invocation w3 out w4
                Hr Hg Hb Hx) as Hone.
  rewrite <- Hsw in Hone. apply execute_one_of_switch in Hone.
  eexists. expand execute. simpl. rewrite (bind_ok _ _ _ _ _ Hone). reflexivity.
Qed.

(** X8: a request whose name [execute] does not know is answered
    without any call: the state after it is the state before it. *)
Theorem unknown_tool_makes_no_call (request : ToolCallRequestInfo) (s : St) :
  ~ In (name request) implemented ->
  snd (execute [request] s) = s.
Proof.
  intros Hn.
  pose proof (execute_one_of_switch _ _ _ _ (execute_switch_default request s Hn))
    as Hone.
  expand execute. simpl. rewrite (bind_ok _ _ _ _ _ Hone). reflexivity.
Qed.

Lemma shell_result_text_not_empty (r : ShellExecutionResult) :
  shell_result_text isBinary r <> "".
Proof.
  unfold shell_result_text.
  destruct (error r); [discriminate|].
  destruct (aborted r); [discriminate|].
  destruct (signal_truthy (signal r)); [discriminate|].
  destruct (negb (exitCode r =? 0)); [discriminate|].
  destruct (isBinary (rawOutput r)); [discriminate|].
  unfold js_or. destruct (String.eqb_spec (trim (output r)) ""); [discriminate|].
  assumption.
Qed.

(** X9: when [execute] returns for a [run_shell_command] request, the
    result text is not the empty string, whatever the arguments are and
    whatever the collaborators do; it does not return only when a
    collaborator has thrown [undefined] or [null], which makes the
    [catch] throw in its turn. *)
Theorem shell_result_is_never_empty (request : ToolCallRequestInfo) (s : St) :
  name request = "run_shell_command" ->
  (exists r s',
     execute [request] s = (Ok [r], s')
     /\ res_callId r = callId request
     /\ result r <> "")
  \/ (exists value s',
        (value = JUndefined \/ value = JNull)
        /\ execute_switch request s = (Throw (ThrownValue value), s')
        /\ execute [request] s
           = (Throw (ThrownError
                {| message := "Cannot read properties of " +:+ js_String value
                                +:+ " (reading 'message')" |}), s')).
Proof.
  intros Hname.
  destruct (execute_switch request s) as [[text|e] s1] eqn:Hsw.
  - left. pose proof (execute_one_of_switch _ _ _ _ Hsw) as Hone.
    eexists _, _.
    split; [exact (execute_last [] request s [] s _ s1 eq_refl Hone)|].
    split; [reflexivity|]. simpl.
    revert Hsw. expand execute_switch. rewrite Hname. simpl.
    expand runShellCommand.
    destruct (negb (js_truthy _)).
    + unfold ret. intros H. inversion H. discriminate.
    + unfold bind, call, ret.
      destruct (getTargetDir config (world s)) as [[cwd|e] w1]; [|discriminate].
      simpl.
      destruct (ShellExecutionService_execute _ cwd w1) as [[r|e] w2];
        [|discriminate].
      intros H. inversion H. apply shell_result_text_not_empty.
  - pose proof (execute_catches [] request [] s [] s e s1 eq_refl Hsw) as H.
    destruct e as [error|[| |b|n|str|items|fields]];
      try (left; destruct H as (text & H & _); eexists _, _;
           split; [exact H|]; split; [reflexivity|]; simpl;
           rewrite Hname; discriminate).
    + right. exists JUndefined, s1. split; [now left|]. split; [reflexivity|exact H].
    + right. exists JNull, s1. split; [now right|]. split; [reflexivity|exact H].
Qed.

(** ** Trimming *)

Lemma trimStart_all_white_space (s : string) :
  all_white_space s = true -> trimStart s = "".
Proof.
  induction s as [|c s IH]; simpl; [reflexivity|].
  destruct (is_white_space c); [exact IH | discriminate].
Qed.

Lemma trimStart_head (s : string) c rest :
  trimStart s = String c rest -> is_white_space c = false.
Proof.
  induction s as [|d s IH]; simpl; [discriminate|].
  destruct (is_white_space d) eqn:Hd; [exact IH|].
  intros H. inversion H; subst. exact Hd.
Qed.

Lemma trimStart_empty (s : string) :
  trimStart s = "" -> all_white_space s = true.
Proof.
  induction s as [|c s IH]; simpl; [reflexivity|].
  destruct (is_white_space c); [exact IH | discriminate].
Qed.

Lemma all_white_space_rev_app (s acc : string) :
  all_white_space (String.rev_app s acc)
  = all_white_space s && all_white_space acc.
Proof.
  revert acc. induction s as [|c s IH]; intros acc; simpl; [reflexivity|].
  rewrite IH. simpl. destruct (is_white_space c), (all_white_space s); reflexivity.
Qed.

Lemma rev_app_empty (s acc : string) :
  String.rev_app s acc = "" -> s = "" /\ acc = "".
Proof.
  revert acc. induction s as [|c s IH]; intros acc; simpl; [now split|].
  intros H. apply IH in H. destruct H as [_ H]. discriminate.
Qed.

Lemma trim_empty (s : string) : trim s = "" <-> all_white_space s = true.
Proof.
  unfold trim, trimEnd, String.rev. split.
  - intros H. apply rev_app_empty in H. destruct H as [H _].
    apply trimStart_empty in H. rewrite all_white_space_rev_app in H.
    apply andb_true_iff in H. destruct H as [H _].
    destruct (trimStart s) as [|c rest] eqn:Hs.
    + now apply trimStart_empty.
    + apply trimStart_head in Hs. simpl in H. rewrite Hs in H. discriminate.
  - intros H. rewrite (trimStart_all_white_space s H). reflexivity.
Qed.

(** X10: for a command that ends cleanly (no error, not cancelled, no
    signal, exit code 0) with output that is not binary, output that
    consists of white space only is reported as "(Command produced no
    output)"; any other output is reported trimmed, and the trimmed text
    is not empty. *)
Theorem blank_output_is_reported_as_no_output (r : ShellExecutionResult) :
  error r = None -> aborted r = false -> signal_truthy (signal r) = None ->
  exitCode r = 0 -> isBinary (rawOutput r) = false ->
  (all_white_space (output r) = true ->
   shell_result_text isBinary r = "(Command produced no output)")
  /\ (all_white_space (output r) = false ->
      shell_result_text isBinary r = trim (output r)
      /\ trim (output r) <> "").
Proof.
  intros He Ha Hs Hx Hb. unfold shell_result_text.
  rewrite He, Ha, Hs, Hx, Hb. simpl. unfold js_or. split.
  - intros Hw. apply trim_empty in Hw. now rewrite Hw.
  - intros Hw.
    assert (Hne : trim (output r) <> "").
    { intros H. apply trim_empty in H. congruence. }
    split; [|exact Hne]. apply String.eqb_neq in Hne. now rewrite Hne.
Qed.

(* ===================================================================== *)
(** * Further properties of processStream *)
(* ===================================================================== *)

(** X28: when the callback throws at the message for an event, reading
    the stream ends there: the message counts as handed over, what the
    callback has thrown is thrown on to the caller, and the events after
    it are not looked at. *)
Theorem callback_failure_stops_the_stream
    (bot : BotMessage -> Effect unit)
    (event : ServerGeminiStreamEvent) (rest : Stream)
    (prompt_id : string) (s : St) msg e w :
  messages_of_event prompt_id event = [msg] ->
  bot msg (world s) = (Throw e, w) ->
  processStream_calling bot (SYield event rest) prompt_id s
  = (Throw e, {| world := w; calls := calls s; sent := sent s ++ [msg] |}).
Proof.
  intros Hmsg Hbot. expand processStream_calling.
  destruct event; simpl in Hmsg; try discriminate Hmsg;
    inversion Hmsg; subst msg; simpl;
    unfold bind; expand callback; now rewrite Hbot.
Qed.

Lemma stream_then_events events tail :
  stream_events (stream_then events tail) = events ++ stream_events tail.
Proof. induction events as [|ev events IH]; simpl; [reflexivity | now rewrite IH]. Qed.

Lemma stream_then_failure events tail :
  stream_failure (stream_then events tail) = stream_failure tail.
Proof. induction events as [|ev events IH]; simpl; [reflexivity | exact IH]. Qed.

(** X12: when a stream fails after some events, the messages for those
    events have been handed over, in their order, and the failure is
    thrown on to the caller; the requests collected so far are not
    returned. *)
Theorem failing_stream_keeps_earlier_messages
    (events : list ServerGeminiStreamEvent) (e : Thrown)
    (prompt_id : string) (s : St) :
  processStream (stream_then events (SThrow e)) prompt_id s
  = (Throw e, emit s (messages_of_events prompt_id events)).
Proof.
  rewrite processStream_run, stream_then_failure, stream_then_events.
  simpl. now rewrite app_nil_r.
Qed.

Lemma messages_of_events_app prompt_id a b :
  messages_of_events prompt_id (a ++ b)
  = messages_of_events prompt_id a ++ messages_of_events prompt_id b.
Proof. expand messages_of_events. apply flat_map_app. Qed.

Lemma requests_of_app a b : requests_of (a ++ b) = requests_of a ++ requests_of b.
Proof. apply flat_map_app. Qed.

(** X13: the requests that [processStream] returns are the requests of
    the [tool_call_request] messages it handed over, in the same order.
    It hands over no [tool_result] message, every [finished] message
    carries the prompt id it was given, and there is at most one
    message per event. *)
Theorem collected_requests_are_the_announced_ones
    (events : list ServerGeminiStreamEvent) (prompt_id : string) (s : St) :
  let msgs := messages_of_events prompt_id events in
  processStream (stream_of_list events) prompt_id s
  = (Ok (announced_requests msgs), emit s msgs)
  /\ (forall request r, ~ In (MsgToolResult request r) msgs)
  /\ (forall reason id, In (MsgFinished reason id) msgs -> id = prompt_id)
  /\ (length msgs <= length events)%nat.
Proof.
  intros msgs. subst msgs.
  rewrite processStream_run, stream_of_list_events, stream_of_list_failure.
  split; [|split; [|split]].
  - f_equal. f_equal.
    induction events as [|event events IH]; [reflexivity|].
    change (event :: events) with ([event] ++ events).
    rewrite requests_of_app, messages_of_events_app.
    unfold announced_requests in IH |- *. rewrite flat_map_app, <- IH.
    f_equal. destruct event; reflexivity.
  - intros request r. induction events as [|event events IH]; [intros []|].
    change (event :: events) with ([event] ++ events).
    rewrite messages_of_events_app. intros H. apply in_app_or in H.
    destruct H as [H | H]; [|now apply IH].
    destruct event; simpl in H; repeat destruct H as [H | H]; try discriminate H;
      try contradiction.
  - intros reason id. induction events as [|event events IH]; [intros []|].
    change (event :: events) with ([event] ++ events).
    rewrite messages_of_events_app. intros H. apply in_app_or in H.
    destruct H as [H | H]; [|now apply IH].
    destruct event; simpl in H; repeat destruct H as [H | H]; try discriminate H;
      try contradiction.
    now inversion H.
  - induction events as [|event events IH]; [reflexivity|].
    change (event :: events) with ([event] ++ events).
    rewrite messages_of_events_app, !length_app.
    assert (length (messages_of_events prompt_id [event]) <= 1)%nat
      by (destruct event; simpl; lia).
    change (length [event]) with 1%nat. lia.
Qed.

(** X14: reading one stream after another from where the first reading
    stopped gives the messages and the requests of reading the two
    streams' events as one stream. *)
Theorem processStream_concat
    (first second : list ServerGeminiStreamEvent) (prompt_id : string)
    (s : St) requests1 s1 requests2 s2 :
  processStream (stream_of_list first) prompt_id s = (Ok requests1, s1) ->
  processStream (stream_of_list second) prompt_id s1 = (Ok requests2, s2) ->
  processStream (stream_of_list (first ++ second)) prompt_id s
  = (Ok (requests1 ++ requests2), s2).
Proof.
  rewrite !processStream_run, !stream_of_list_events, !stream_of_list_failure.
  intros H1 H2. inversion H1; subst. inversion H2; subst.
  now rewrite requests_of_app, messages_of_events_app, emit_emit.
Qed.

(* ===================================================================== *)
(** * Further properties of streamQuery *)
(* ===================================================================== *)

Lemma find_request_in toolCallRequests request :
  In request toolCallRequests ->
  exists found,
    find_request toolCallRequests (callId request) = Some found
    /\ In found toolCallRequests /\ callId found = callId request.
Proof.
  intros Hin.
  destruct (find_request toolCallRequests (callId request)) as [found|] eqn:Hfind.
  - exists found. split; [reflexivity|]. now apply find_request_some.
  - pose proof (find_none _ _ Hfind request Hin) as Hneq. simpl in Hneq.
    now rewrite String.eqb_refl in Hneq.
Qed.

Lemma find_request_first before request rest id :
  (forall q, In q before -> callId q <> id) ->
  callId request = id ->
  find_request (before ++ request :: rest) id = Some request.
Proof.
  intros Hbefore Hid. unfold find_request.
  induction before as [|q before IH]; simpl.
  - apply String.eqb_eq in Hid. now rewrite Hid.
  - assert (Hq : callId q <> id) by (apply Hbefore; now left).
    apply String.eqb_neq in Hq. rewrite Hq. apply IH.
    intros q' Hq'. apply Hbefore. now right.
Qed.

Lemma find_request_unique toolCallRequests request :
  List.NoDup (map callId toolCallRequests) ->
  In request toolCallRequests ->
  find_request toolCallRequests (callId request) = Some request.
Proof.
  intros Hnodup Hin. apply in_split in Hin. destruct Hin as (before & rest & ->).
  apply find_request_first; [|reflexivity].
  intros q Hq Heq. rewrite map_app in Hnodup. simpl in Hnodup.
  apply NoDup_remove_2 in Hnodup. apply Hnodup. apply in_or_app. left.
  rewrite <- Heq. now apply in_map.
Qed.

(** The messages about results whose callIds are, one by one, those of
    some of the requests. *)
Lemma inform_messages_matched all_requests :
  forall requests toolResults,
    (forall q, In q requests -> In q all_requests) ->
    map res_callId toolResults = map callId requests ->
    Forall2 (fun request msg =>
               exists found r,
                 msg = MsgToolResult found r
                 /\ find_request all_requests (callId request) = Some found
                 /\ res_callId r = callId request)
            requests (inform_messages all_requests toolResults)
    /\ Forall2 (fun request r => res_callId r = callId request) requests toolResults.
Proof.
  induction requests as [|request requests IH]; intros toolResults Hsub Hids.
  - destruct toolResults; [|discriminate]. split; constructor.
  - destruct toolResults as [|r toolResults]; [discriminate|].
    simpl in Hids. inversion Hids as [[Hid Hrest]].
    destruct (IH toolResults (fun q Hq => Hsub q (or_intror Hq)) Hrest)
      as [IHm IHr].
    destruct (find_request_in all_requests request (Hsub _ (or_introl eq_refl)))
      as (found & Hfind & _ & _).
    split; [|constructor; assumption].
    unfold inform_messages in IHm |- *. simpl. rewrite Hid, Hfind. simpl.
    constructor; [|exact IHm]. exists found, r.
    split; [reflexivity|]. split; [exact Hfind | exact Hid].
Qed.

(** X15: every result that the scheduler returns finds its request:
    there is exactly one [tool_result] message per request, in the order
    of the requests, for a request with the same callId; and the part
    built for each result has the result's text, unchanged, as its
    content. *)
Theorem every_result_of_execute_finds_its_request
    (requests : list ToolCallRequestInfo) (s : St) toolResults s' :
  execute requests s = (Ok toolResults, s') ->
  Forall2 (fun request msg =>
             exists found r,
               msg = MsgToolResult found r
               /\ In found requests
               /\ callId found = callId request
               /\ res_callId r = callId request)
          requests (inform_messages requests toolResults)
  /\ Forall2 (fun r part => part_content part = Some (result r))
             toolResults (map (toolResponsePart requests) toolResults).
Proof.
  intros Hexec.
  pose proof (execute_ok _ _ _ _ Hexec) as Hids.
  split.
  - destruct (inform_messages_matched requests requests toolResults
                (fun q Hq => Hq) Hids) as [Hm _].
    eapply Forall2_impl; [exact Hm|]. simpl.
    intros request msg (found & r & -> & Hfind & Hid).
    apply find_request_some in Hfind. destruct Hfind as [Hin Hcid].
    exists found, r. auto.
  - clear. induction toolResults as [|r rest IH]; simpl; constructor; auto.
Qed.

(** X16: when the requests of a pass have pairwise different callIds,
    the i-th [tool_result] message pairs the i-th request with the i-th
    result of the scheduler, and the i-th part of the next prompt
    carries the i-th request's name. *)
Theorem results_are_paired_by_position
    (requests : list ToolCallRequestInfo) (s : St) toolResults s' :
  List.NoDup (map callId requests) ->
  execute requests s = (Ok toolResults, s') ->
  inform_messages requests toolResults
  = map (fun pair => MsgToolResult (fst pair) (snd pair))
        (combine requests toolResults)
  /\ map part_name (map (toolResponsePart requests) toolResults)
     = map (fun request => Some (name request)) requests.
Proof.
  intros Hnodup Hexec.
  pose proof (execute_ok _ _ _ _ Hexec) as Hids.
  clear Hexec.
  assert (Hgen : forall later results,
            (forall q, In q later -> In q requests) ->
            map res_callId results = map callId later ->
            inform_messages requests results
            = map (fun pair => MsgToolResult (fst pair) (snd pair))
                  (combine later results)
            /\ map part_name (map (toolResponsePart requests) results)
               = map (fun request => Some (name request)) later).
  { induction later as [|q later IH]; intros results Hsub Hmap.
    - destruct results; [|discriminate]. split; reflexivity.
    - destruct results as [|r results]; [discriminate|].
      simpl in Hmap. inversion Hmap as [[Hid Hrest]].
      destruct (IH results (fun q' Hq' => Hsub q' (or_intror Hq')) Hrest)
        as [IHm IHp].
      pose proof (find_request_unique requests q Hnodup
                    (Hsub _ (or_introl eq_refl))) as Hfind.
      split.
      + unfold inform_messages in IHm |- *. simpl. rewrite Hid, Hfind. simpl.
        now rewrite IHm.
      + simpl. rewrite IHp. unfold original_name. rewrite Hid, Hfind.
        now rewrite js_or_empty. }
  apply Hgen; [auto | exact Hids].
Qed.

(** X17: the request that a result is reported with is the first one
    with the result's callId: requests further down the list, also one
    with the same callId, do not change the [tool_result] message or the
    name in the part. *)
Theorem first_request_with_the_callId_wins
    (before : list ToolCallRequestInfo) (request : ToolCallRequestInfo)
    (rest : list ToolCallRequestInfo) (r : ToolResult) :
  (forall q, In q before -> callId q <> res_callId r) ->
  callId request = res_callId r ->
  inform_messages (before ++ request :: rest) [r] = [MsgToolResult request r]
  /\ toolResponsePart (before ++ request :: rest) r
     = PUPart (PartFunctionResponse
         {| functionResponse_name := name request;
            response := {| response_name := name request;
                           response_content := result r |} |}).
Proof.
  intros Hbefore Hid.
  pose proof (find_request_first before request rest _ Hbefore Hid) as Hfind.
  unfold inform_messages, toolResponsePart, original_name. simpl.
  rewrite Hfind, js_or_empty. split; reflexivity.
Qed.

(** X18: a conversation of two passes.  When the first stream asks for
    tools and the second does not, [streamQuery] returns after exactly
    these two passes: the second stream was asked for with the parts made
    from the scheduler's results as its prompt, and the messages are
    those of the first stream, those about the results, and those of the
    second stream. *)
Theorem two_pass_conversation
    (scheduler : list ToolCallRequestInfo -> M (list ToolResult))
    (geminiClient : GeminiClient) (prompt : PartListUnion) (s : St)
    sessionId1 w1 random1 w2 stream1 w3 toolResults s3
    sessionId2 w4 random2 w5 stream2 w6 :
  getGeminiClient config = Some geminiClient ->
  getSessionId config (world s) = (Ok sessionId1, w1) ->
  Math_random w1 = (Ok random1, w2) ->
  sendMessageStream geminiClient prompt
    (sessionId1 +:+ "########" +:+ random1) w2 = (Ok stream1, w3) ->
  stream_failure stream1 = None ->
  requests_of (stream_events stream1) <> [] ->
  scheduler (requests_of (stream_events stream1))
    (opened s prompt (sessionId1 +:+ "########" +:+ random1) w3 stream1)
  = (Ok toolResults, s3) ->
  getSessionId config (world s3) = (Ok sessionId2, w4) ->
  Math_random w4 = (Ok random2, w5) ->
  sendMessageStream geminiClient
    (toolResponseParts (requests_of (stream_events stream1)) toolResults)
    (sessionId2 +:+ "########" +:+ random2) w5 = (Ok stream2, w6) ->
  stream_failure stream2 = None ->
  requests_of (stream_events stream2) = [] ->
  forall fuel,
    streamQuery_with scheduler (S (S fuel)) prompt s
    = (Returns,
       {| world := w6;
          calls := calls s3 ++
            [CallGetSessionId; CallRandom;
             CallSendMessageStream
               (toolResponseParts (requests_of (stream_events stream1)) toolResults)
               (sessionId2 +:+ "########" +:+ random2)];
          sent := sent s3
                  ++ inform_messages (requests_of (stream_events stream1)) toolResults
                  ++ messages_of_events (sessionId2 +:+ "########" +:+ random2)
                       (stream_events stream2) |}).
Proof.
  intros Hclient Hid1 Hrnd1 Hsend1 Hend1 Hsome Hsched Hid2 Hrnd2 Hsend2 Hend2 Hnone
    fuel.
  expand streamQuery_with. rewrite Hclient. simpl.
  rewrite (loop_body_run _ _ _ _ _ _ _ _ _ _ Hid1 Hrnd1 Hsend1). cbv zeta.
  rewrite Hend1.
  destruct (requests_of (stream_events stream1)) as [|request requests] eqn:Hreqs;
    [contradiction|].
  rewrite Hsched.
  erewrite loop_body_run by (simpl; eassumption). cbv zeta.
  rewrite Hend2, Hnone. unfold opened, emit. simpl.
  now rewrite <- app_assoc.
Qed.

End Properties.
(* ===================================================================== *)
(** * The properties in the sample environment *)
(* ===================================================================== *)

(** C1, at a scheduler whose configuration refuses the tool registry
    without a reason: of three requests, the second needs the registry,
    and [execute] throws; the first request's result is lost and the
    third request is not handled. *)
Lemma execute_rejects_when_the_caught_value_is_nullish_sample :
  SampleMore.execute_rejecting
    [Sample.unknown_request; Sample.read_file_request; Sample.ls_request]
    Sample.start
  = (Throw (ThrownError
       {| message := "Cannot read properties of undefined (reading 'message')" |}),
     {| world := O; calls := [CallGetToolRegistry]; sent := [] |}).
Proof.
  exact (execute_rejects_when_the_caught_value_is_nullish Sample.isBinary
           Sample.getErrorMessage Sample.ShellExecutionService_execute
           SampleMore.config_rejecting
           [Sample.unknown_request] Sample.read_file_request [Sample.ls_request]
           Sample.start
           [ {| res_callId := "7";
                result := "[ERROR] Tool 'frobnicate' is not implemented." |} ]
           Sample.start JUndefined O
           eq_refl ltac:(simpl; auto) eq_refl (or_introl eq_refl)).
Defined.

Lemma tool_result_after_its_request_sample :
  silent Sample.mock_execute
  /\ (exists new,
        sent (snd (Sample.streamQuery_with Sample.config Sample.mock_execute 5
                     Sample.initial_prompt Sample.start))
        = sent Sample.start ++ new
        /\ results_follow_requests new)
  /\ (exists next s',
        Sample.loop_body Sample.config
          Sample.mock_execute Sample.client Sample.initial_prompt Sample.start
        = (Ok (Next next), s')
        /\ sent s'
           = [ MsgToolCallRequest Sample.ls_request;
               MsgFinished "STOP" "session-id########0.5";
               MsgToolResult Sample.ls_request
                 {| res_callId := "123"; result := "tool result" |} ]).
Proof.
  assert (H : silent Sample.mock_execute) by (intros requests s; reflexivity).
  split; [exact H|].
  destruct (tool_result_after_its_request Sample.getErrorMessage
              Sample.JSON_stringify Sample.Math_random Sample.config
              Sample.mock_execute H) as [Hall Hpass].
  split; [apply Hall|].
  exact (Hpass Sample.client Sample.initial_prompt Sample.start
           "session-id" O "0.5" O 1%nat Sample.ls_request "STOP"
           {| res_callId := "123"; result := "tool result" |} _
           eq_refl eq_refl eq_refl eq_refl eq_refl).
Defined.

Lemma runShellCommand_priority_sample :
  exists text s',
    runShellCommand Sample.isBinary Sample.ShellExecutionService_execute
      Sample.config (JStr "ls") Sample.start = (Ok text, s')
    /\ text = "hello world".
Proof.
  destruct (runShellCommand_priority Sample.isBinary
              Sample.ShellExecutionService_execute Sample.config
              (JStr "ls") Sample.start "/tmp" O Sample.hello O
              eq_refl eq_refl eq_refl)
    as (text & s' & Hrun & _ & _ & _ & Hcases).
  exists text, s'. split; [exact Hrun|].
  apply Hcases; reflexivity.
Defined.

(** C5, without its provisos: when the configuration has no client,
    [streamQuery] throws; and when the connection to the model fails and
    the callback throws on the [error] message that reports it,
    [streamQuery] throws what the callback has thrown. *)
Lemma streamQuery_throws_past_its_boundary :
  fst (Sample.streamQuery Sample.config_without_client 1
         Sample.initial_prompt Sample.start)
  = Throws {| message := "Gemini client is not initialized." |}
  /\ streamQuery Sample.isBinary Sample.getErrorMessage Sample.JSON_stringify
       Sample.ShellExecutionService_execute Sample.Math_random Sample.throwing
       Sample.config_unreachable 1 Sample.initial_prompt Sample.start
     = (Throws {| message := "callback failed" |},
        {| world := O;
           calls := [CallGetSessionId; CallRandom;
                     CallSendMessageStream Sample.initial_prompt
                       "session-id########0.5"];
           sent := [MsgError "connection refused"] |}).
Proof. split; reflexivity. Qed.

Lemma loop_failure_is_reported_sample :
    Sample.streamQuery_with Sample.config_unreachable Sample.mock_execute
      5 Sample.initial_prompt Sample.start
    = (Returns,
       {| world := O;
          calls := [CallGetSessionId; CallRandom;
                    CallSendMessageStream Sample.initial_prompt "session-id########0.5"];
          sent := [MsgError "connection refused"] |}).
Proof.
  destruct (loop_failure_is_reported Sample.getErrorMessage Sample.JSON_stringify
              Sample.Math_random Sample.config_unreachable (@recording nat)
              Sample.mock_execute _ eq_refl) as (_ & _ & _ & Hfail).
  exact (Hfail Sample.initial_prompt Sample.start "session-id" O "0.5" O
           (ThrownError {| message := "connection refused" |}) O O
           eq_refl eq_refl eq_refl eq_refl 4%nat).
Defined.

(** C6, for [read_file]: the registry has the tool and its invocation
    resolves with a sequence of two parts, and the result text is not
    the sequence joined with newlines. *)
Lemma read_file_joins_with_commas :
  fst (Sample.execute [Sample.read_file_request] Sample.start)
  = Ok [ {| res_callId := "111"; result := "a,b" |} ]
  /\ normalize_spec Sample.two_parts = "a" +:+ newline +:+ "b"
  /\ fst (Sample.execute [Sample.read_file_request] Sample.start)
     <> Ok [ {| res_callId := "111";
                result := normalize_spec Sample.two_parts |} ].
Proof. repeat split. discriminate. Qed.

Lemma registry_tool_content_normalized_sample :
  exists s',
    Sample.execute [Sample.read_file_request; Sample.read_many_files_request]
      Sample.start
    = (Ok [ {| res_callId := "111"; result := "a,b" |};
            {| res_callId := "456"; result := "a" +:+ newline +:+ "b" |} ], s').
Proof.
  destruct (registry_tool_content_normalized Sample.isBinary Sample.getErrorMessage
              Sample.ShellExecutionService_execute Sample.config
              [Sample.read_file_request] Sample.read_many_files_request []
              Sample.start [ {| res_callId := "111"; result := "a,b" |} ]
              {| world := O;
                 calls := [CallGetToolRegistry; CallGetTool "read_file";
                           CallBuild "read_file" (args Sample.read_file_request);
                           CallExecute "read_file"];
                 sent := [] |}
              Sample.registry O (Sample.tool_returning Sample.two_parts) O
              {| invocation_execute := fun w' =>
                   (Ok {| llmContent := Sample.two_parts |}, w') |} O
              {| llmContent := Sample.two_parts |} O
              eq_refl ltac:(simpl; tauto) eq_refl eq_refl eq_refl eq_refl)
    as (text & s' & Hrun & _ & Htext & _).
  exists s'. subst text. exact Hrun.
Defined.

Lemma unresolved_request_reports_error_sample :
  exists s',
    Sample.execute [Sample.no_command_request; Sample.unknown_request] Sample.start
    = (Ok [ {| res_callId := "9";
               result := "[ERROR] No command provided to run_shell_command." |};
            {| res_callId := "7";
               result := "[ERROR] Tool 'frobnicate' is not implemented." |} ], s').
Proof.
  assert (Hunknown : ~ In (name Sample.unknown_request) implemented).
  { intros [H|[H|[H|[H|[H|[]]]]]]; discriminate H. }
  destruct (unresolved_request_reports_error Sample.isBinary Sample.getErrorMessage
              Sample.ShellExecutionService_execute Sample.config
              [Sample.no_command_request] Sample.unknown_request []
              Sample.start
              [ {| res_callId := "9";
                   result := "[ERROR] No command provided to run_shell_command." |} ]
              Sample.start eq_refl (or_introl Hunknown))
    as (text & s' & Hrun & _ & _ & _ & Htext).
  exists s'. rewrite (Htext Hunknown) in Hrun. exact Hrun.
Defined.

Lemma empty_command_is_not_run_sample :
  Sample.execute [Sample.no_command_request] Sample.start
  = (Ok [ {| res_callId := "9";
             result := "[ERROR] No command provided to run_shell_command." |} ],
     Sample.start).
Proof.
  exact (empty_command_is_not_run Sample.isBinary Sample.getErrorMessage
           Sample.ShellExecutionService_execute Sample.config
           [] Sample.no_command_request Sample.start [] Sample.start
           eq_refl (or_introl eq_refl) eq_refl).
Defined.



Lemma unmatched_result_has_no_message_sample :
  exists s',
    Sample.loop_body Sample.config
      Sample.stray_execute Sample.client Sample.initial_prompt Sample.start
    = (Ok (Next (PLMany
         [ PUPart (PartFunctionResponse
             {| functionResponse_name := "";
                response := {| response_name := "";
                               response_content := "stray" |} |});
           PUPart (PartFunctionResponse
             {| functionResponse_name := "run_shell_command";
                response := {| response_name := "run_shell_command";
                               response_content := "tool result" |} |}) ])), s')
    /\ sent s'
       = [ MsgToolCallRequest Sample.ls_request;
           MsgFinished "STOP" "session-id########0.5";
           MsgToolResult Sample.ls_request
             {| res_callId := "123"; result := "tool result" |} ].
Proof.
  destruct (unmatched_result_has_no_message Sample.JSON_stringify
              Sample.Math_random Sample.config Sample.stray_execute Sample.client
              Sample.initial_prompt Sample.start
              "session-id" O "0.5" O
              (stream_of_list [EvToolCallRequest Sample.ls_request; EvFinished "STOP"])
              1%nat _ _
              eq_refl eq_refl eq_refl eq_refl ltac:(discriminate) eq_refl)
    as (Hrun & _).
  eexists. split; [exact Hrun | reflexivity].
Defined.

(* ===================================================================== *)
(** * Properties of initialize *)
(* ===================================================================== *)

Lemma contains_refl (p : string) : contains p p.
Proof. exists "", "". simpl. now rewrite string_app_empty_r. Qed.

Lemma contains_app_l (p a b : string) : contains p a -> contains p (a +:+ b).
Proof.
  intros (before & rest & ->). exists before, (rest +:+ b).
  now rewrite !string_app_assoc.
Qed.

Lemma contains_app_r (p a b : string) : contains p b -> contains p (a +:+ b).
Proof.
  intros (before & rest & ->). exists (a +:+ before), rest.
  now rewrite !string_app_assoc.
Qed.

Lemma join_contains (sep x : string) (l : list string) :
  In x l -> contains x (join sep l).
Proof.
  unfold join. induction l as [|y l IH]; intros Hin; [destruct Hin|].
  simpl. destruct l as [|z l].
  - destruct Hin as [-> | []]. apply contains_refl.
  - destruct Hin as [-> | Hin].
    + apply contains_app_l, contains_refl.
    + apply contains_app_r, contains_app_r. now apply IH.
Qed.

Section StartupProperties.

#[local] Set Default Proof Using "Type".

Context {W : Type}.
Variable process_cwd : @Effect W string.
Variable loadSettings : string -> @Effect W LoadedSettings.
Variable loadExtensions : string -> @Effect W JsVal.
Variable loadCliConfig :
  Settings -> JsVal -> string -> JsVal -> @Effect W (@ConfigObject W).
Variable validateAuthMethod : string -> @Effect W (option string).
Variable sessionId : string.

Local Abbreviation initialize :=
  (initialize process_cwd loadSettings loadExtensions loadCliConfig
     validateAuthMethod sessionId).

Ltac initialize_head t := lazymatch t with ?f _ => initialize_head f | _ => t end.
Ltac run_initialize :=
  let t := constr:(initialize) in
  let h := initialize_head t in
  unfold h, authenticate, sbind, stry, scall, sthrow, sret; simpl.

(** X19: when the settings files have errors, [initialize] throws
    "Failed to load settings:" followed by one line for each error, with
    the error's path and message, right after the settings are read:
    neither the extensions nor the config are loaded. *)
Theorem settings_errors_stop_initialize (s : @StartupSt W) root w1 settings w2 :
  process_cwd (startup_world s) = (Ok root, w1) ->
  loadSettings root w1 = (Ok settings, w2) ->
  errors settings <> [] ->
  exists text,
    initialize s
    = (Throw {| message := "Failed to load settings:" +:+ newline +:+ text |},
       {| startup_world := w2;
          startup_calls := startup_calls s ++ [CallCwd; CallLoadSettings root] |})
    /\ forall e, In e (errors settings) ->
         contains ("Error in " +:+ settings_error_path e +:+ ": "
                     +:+ settings_error_message e) text.
Proof.
  intros Hcwd Hload Herrors.
  exists (join newline (map settings_error_line (errors settings))). split.
  - run_initialize. rewrite Hcwd. simpl. rewrite Hload. simpl.
    destruct (errors settings); [contradiction|].
    now rewrite <- app_assoc.
  - intros e He. apply join_contains.
    change ("Error in " +:+ settings_error_path e +:+ ": "
              +:+ settings_error_message e) with (settings_error_line e).
    now apply in_map.
Qed.

(** X20: when the settings select no authentication type (none, or the
    empty string), [initialize] throws "Authentication not configured
    ..." before any extension or config is loaded. *)
Theorem missing_auth_type_stops_initialize (s : @StartupSt W) root w1 settings w2 :
  process_cwd (startup_world s) = (Ok root, w1) ->
  loadSettings root w1 = (Ok settings, w2) ->
  errors settings = [] ->
  (selectedAuthType (merged settings) = None
   \/ selectedAuthType (merged settings) = Some "") ->
  initialize s
  = (Throw {| message :=
       "Authentication not configured. Please run `gemini auth` or `gemini init` to set up your authentication method." |},
     {| startup_world := w2;
        startup_calls := startup_calls s ++ [CallCwd; CallLoadSettings root] |}).
Proof.
  intros Hcwd Hload Herrors Hauth.
  run_initialize. rewrite Hcwd. simpl. rewrite Hload. simpl. rewrite Herrors.
  destruct Hauth as [-> | ->]; simpl; now rewrite <- app_assoc.
Qed.

(** X21: when [validateAuthMethod] objects to the authentication type,
    [initialize] throws "Authentication failed: <the objection>"; the
    config has been initialized by then, and [refreshAuth] is not
    called. *)
Theorem rejected_auth_method_stops_initialize
    (s : @StartupSt W) root w1 settings w2 authType extensions w3
    config w4 w5 objection w6 :
  process_cwd (startup_world s) = (Ok root, w1) ->
  loadSettings root w1 = (Ok settings, w2) ->
  errors settings = [] ->
  selectedAuthType (merged settings) = Some authType ->
  authType <> "" ->
  loadExtensions root w2 = (Ok extensions, w3) ->
  loadCliConfig (merged settings) extensions sessionId
    (JObj [("interactive", JBool false)]) w3 = (Ok config, w4) ->
  config_initialize config w4 = (Ok tt, w5) ->
  validateAuthMethod authType w5 = (Ok (Some objection), w6) ->
  objection <> "" ->
  initialize s
  = (Throw {| message := "Authentication failed: " +:+ objection |},
     {| startup_world := w6;
        startup_calls := startup_calls s ++
          [CallCwd; CallLoadSettings root; CallLoadExtensions root;
           CallLoadCliConfig (merged settings) extensions sessionId
             (JObj [("interactive", JBool false)]);
           CallInitialize; CallValidateAuthMethod authType] |}).
Proof.
  intros Hcwd Hload Herrors Hauth Hne Hext Hcfg Hinit Hval Hobj.
  apply String.eqb_neq in Hne. apply String.eqb_neq in Hobj.
  run_initialize. rewrite Hcwd. simpl. rewrite Hload. simpl.
  rewrite Herrors, Hauth. simpl. rewrite Hne. simpl.
  rewrite Hext. simpl. rewrite Hcfg. simpl. rewrite Hinit. simpl.
  rewrite Hval. simpl. rewrite Hobj. simpl. now rewrite <- !app_assoc.
Qed.

(** X22: when [refreshAuth] fails with an [Error], [initialize] throws
    "Authentication failed: <the failure's message>". *)
Theorem failed_refresh_stops_initialize
    (s : @StartupSt W) root w1 settings w2 authType extensions w3
    config w4 w5 verdict w6 (e : JsError) w7 :
  process_cwd (startup_world s) = (Ok root, w1) ->
  loadSettings root w1 = (Ok settings, w2) ->
  errors settings = [] ->
  selectedAuthType (merged settings) = Some authType ->
  authType <> "" ->
  loadExtensions root w2 = (Ok extensions, w3) ->
  loadCliConfig (merged settings) extensions sessionId
    (JObj [("interactive", JBool false)]) w3 = (Ok config, w4) ->
  config_initialize config w4 = (Ok tt, w5) ->
  validateAuthMethod authType w5 = (Ok verdict, w6) ->
  string_truthy verdict = None ->
  refreshAuth config authType w6 = (Throw e, w7) ->
  fst (initialize s)
  = Throw {| message := "Authentication failed: " +:+ message e |}.
Proof.
  intros Hcwd Hload Herrors Hauth Hne Hext Hcfg Hinit Hval Hverdict Hrefresh.
  apply String.eqb_neq in Hne.
  run_initialize. rewrite Hcwd. simpl. rewrite Hload. simpl.
  rewrite Herrors, Hauth. simpl. rewrite Hne. simpl.
  rewrite Hext. simpl. rewrite Hcfg. simpl. rewrite Hinit. simpl.
  rewrite Hval. simpl. rewrite Hverdict. simpl. rewrite Hrefresh. reflexivity.
Qed.

(** X23: a failure while the config is loaded or initialized is not an
    authentication failure: [initialize] throws it on as it is, and
    neither [validateAuthMethod] nor [refreshAuth] is called. *)
Theorem config_failure_is_thrown_unchanged
    (s : @StartupSt W) root w1 settings w2 authType extensions w3 e w5 :
  process_cwd (startup_world s) = (Ok root, w1) ->
  loadSettings root w1 = (Ok settings, w2) ->
  errors settings = [] ->
  selectedAuthType (merged settings) = Some authType ->
  authType <> "" ->
  loadExtensions root w2 = (Ok extensions, w3) ->
  (loadCliConfig (merged settings) extensions sessionId
     (JObj [("interactive", JBool false)]) w3 = (Throw e, w5)
   \/ exists config w4,
        loadCliConfig (merged settings) extensions sessionId
          (JObj [("interactive", JBool false)]) w3 = (Ok config, w4)
        /\ config_initialize config w4 = (Throw e, w5)) ->
  fst (initialize s) = Throw e
  /\ exists new,
       startup_calls (snd (initialize s)) = startup_calls s ++ new
       /\ forall t, ~ In (CallValidateAuthMethod t) new
                    /\ ~ In (CallRefreshAuth t) new.
Proof.
  intros Hcwd Hload Herrors Hauth Hne Hext Hfail.
  apply String.eqb_neq in Hne.
  run_initialize. rewrite Hcwd. simpl. rewrite Hload. simpl.
  rewrite Herrors, Hauth. simpl. rewrite Hne. simpl. rewrite Hext. simpl.
  destruct Hfail as [Hcfg | (config & w4 & Hcfg & Hinit)].
  - rewrite Hcfg. simpl. split; [reflexivity|].
    eexists. split; [rewrite <- !app_assoc; reflexivity|].
    intros t. split; intros Hc; simpl in Hc;
      repeat destruct Hc as [Hc | Hc]; try discriminate Hc; contradiction.
  - rewrite Hcfg. simpl. rewrite Hinit. simpl. split; [reflexivity|].
    eexists. split; [rewrite <- !app_assoc; reflexivity|].
    intros t. split; intros Hc; simpl in Hc;
      repeat destruct Hc as [Hc | Hc]; try discriminate Hc; contradiction.
Qed.

(** X24: when [initialize] returns a config, it is the config that
    [loadCliConfig] has returned for the merged settings that
    [loadSettings] has returned for the working directory; these
    settings had no error and select a non-empty authentication type, to
    which [validateAuthMethod] did not object and with which
    [refreshAuth] has returned; the config has a client; and the calls
    made are, in this order: the working directory, the settings, the
    extensions, the config (with the merged settings, the extensions,
    the session id and [interactive: false]), the config's
    initialization, the validation of the authentication type, and
    [refreshAuth] with that type. *)
Theorem initialize_returns_a_ready_config
    (s : @StartupSt W) config (s' : @StartupSt W) :
  initialize s = (Ok config, s') ->
  getGeminiClient (as_Config config) <> None
  /\ exists root w1 settings w2 authType extensions w3 w4 w5 verdict w6,
       process_cwd (startup_world s) = (Ok root, w1)
       /\ loadSettings root w1 = (Ok settings, w2)
       /\ errors settings = []
       /\ selectedAuthType (merged settings) = Some authType
       /\ authType <> ""
       /\ loadExtensions root w2 = (Ok extensions, w3)
       /\ loadCliConfig (merged settings) extensions sessionId
            (JObj [("interactive", JBool false)]) w3 = (Ok config, w4)
       /\ config_initialize config w4 = (Ok tt, w5)
       /\ validateAuthMethod authType w5 = (Ok verdict, w6)
       /\ (verdict = None \/ verdict = Some "")
       /\ refreshAuth config authType w6 = (Ok tt, startup_world s')
       /\ startup_calls s'
          = startup_calls s ++
            [CallCwd; CallLoadSettings root; CallLoadExtensions root;
             CallLoadCliConfig (merged settings) extensions sessionId
               (JObj [("interactive", JBool false)]);
             CallInitialize; CallValidateAuthMethod authType;
             CallRefreshAuth authType].
Proof.
  run_initialize.
  destruct (process_cwd (startup_world s)) as [[root|e] w1] eqn:Hcwd; simpl;
    [|discriminate].
  destruct (loadSettings root w1) as [[settings|e] w2] eqn:Hload; simpl;
    [|discriminate].
  destruct (errors settings) as [|err errs] eqn:Herrors; [|discriminate].
  destruct (selectedAuthType (merged settings)) as [authType|] eqn:Hauth;
    simpl; [|discriminate].
  destruct (String.eqb_spec authType "") as [Hempty|Hne]; simpl; [discriminate|].
  destruct (loadExtensions root w2) as [[extensions|e] w3] eqn:Hext; simpl;
    [|discriminate].
  destruct (loadCliConfig _ extensions sessionId _ w3) as [[cfg|e] w4] eqn:Hcfg;
    simpl; [|discriminate].
  destruct (config_initialize cfg w4) as [[[]|e] w5] eqn:Hinit; simpl;
    [|discriminate].
  destruct (validateAuthMethod authType w5) as [[verdict|e] w6] eqn:Hval; simpl;
    [|discriminate].
  destruct (string_truthy verdict) eqn:Hverdict; simpl; [discriminate|].
  destruct (refreshAuth cfg authType w6) as [[[]|e] w7] eqn:Hrefresh; simpl;
    [|discriminate].
  destruct (getGeminiClient (as_Config cfg)) eqn:Hclient; [|discriminate].
  intros H. inversion H; subst config s'. split; [now rewrite Hclient|].
  exists root, w1, settings, w2, authType, extensions, w3, w4, w5, verdict, w6.
  simpl. rewrite <- !app_assoc. simpl.
  repeat (split; [assumption || reflexivity|]).
  split; [|split; [assumption | reflexivity]].
  destruct verdict as [text|]; [|now left]. right.
  unfold string_truthy in Hverdict.
  destruct (String.eqb_spec text "") as [->|]; [reflexivity | discriminate].
Qed.

End StartupProperties.

(* ===================================================================== *)
(** * Properties of runGeminiCli *)
(* ===================================================================== *)

Lemma string_app_quote_inv (a b : string) : a +:+ quote = b +:+ quote -> a = b.
Proof.
  revert b. induction a as [|c a IH]; intros [|d b]; simpl; intros H.
  - reflexivity.
  - injection H as _ Hb. destruct b; discriminate.
  - injection H as _ Ha. destruct a; discriminate.
  - injection H as Hc Hrest. f_equal; auto.
Qed.

(** X26: [runGeminiCli] hands exactly two messages to the callback after
    those it has received before; the first one contains the prompt, and
    prompts that differ give first messages that differ. *)
Theorem runGeminiCli_reports_the_prompt (prompt prompt' : string)
    (messages : list string) :
  (exists report,
     runGeminiCli prompt messages
     = messages ++ [report; "This is a placeholder response from the Gemini CLI."]
     /\ contains prompt report)
  /\ (runGeminiCli prompt messages = runGeminiCli prompt' messages ->
      prompt = prompt').
Proof.
  split.
  - eexists. split.
    + unfold runGeminiCli. rewrite <- app_assoc. reflexivity.
    + exists ("Running Gemini CLI with prompt: " +:+ quote), quote.
      now rewrite string_app_assoc.
  - unfold runGeminiCli. intros H.
    apply app_inv_tail in H. apply app_inv_head in H. injection H as Hreport.
    now apply string_app_quote_inv.
Qed.

(* ===================================================================== *)
(** * The further properties in the sample environment *)
(* ===================================================================== *)

Lemma execute_concat_sample :
  exists s2,
    Sample.execute ([Sample.no_command_request] ++ [Sample.unknown_request])
      Sample.start
    = (Ok ([ {| res_callId := "9";
                result := "[ERROR] No command provided to run_shell_command." |} ]
           ++ [ {| res_callId := "7";
                   result := "[ERROR] Tool 'frobnicate' is not implemented." |} ]),
       s2).
Proof.
  eexists.
  exact (execute_concat Sample.isBinary Sample.getErrorMessage
           Sample.ShellExecutionService_execute Sample.config
           [Sample.no_command_request] [Sample.unknown_request]
           Sample.start _ Sample.start _ _ eq_refl eq_refl).
Defined.

Lemma tool_failure_is_reported_in_its_text_sample :
  exists s',
    Sample.execute [Sample.unknown_request; SampleMore.replace_request] Sample.start
    = (Ok [ {| res_callId := "7";
               result := "[ERROR] Tool 'frobnicate' is not implemented." |};
            {| res_callId := "101";
               result := "[ERROR] Error replacing content: bad arguments" |} ],
       s').
Proof.
  destruct (tool_failure_is_reported_in_its_text Sample.isBinary
              Sample.getErrorMessage Sample.ShellExecutionService_execute
              Sample.config [Sample.unknown_request] SampleMore.replace_request []
              Sample.start
              [ {| res_callId := "7";
                   result := "[ERROR] Tool 'frobnicate' is not implemented." |} ]
              Sample.start Sample.registry O
              (Sample.tool_failing "bad arguments") O
              (ThrownError {| message := "bad arguments" |}) O
              eq_refl ltac:(simpl; auto 6) eq_refl eq_refl (or_introl eq_refl))
    as (what & s' & Hwords & Hrun & _).
  exists s'.
  assert (Hwhat : what = "replacing content").
  { destruct Hwords as [H|[H|[H|[H|[]]]]]; inversion H; reflexivity. }
  rewrite Hwhat in Hrun. exact Hrun.
Defined.

Lemma registry_failure_is_reported_by_execute_sample :
  exists s',
    SampleMore.execute_without_registry [Sample.read_file_request] Sample.start
    = (Ok [ {| res_callId := "111";
               result := "[ERROR] Tool 'read_file' failed: registry not ready" |} ],
       s').
Proof.
  destruct (registry_failure_is_reported_by_execute Sample.isBinary
              Sample.getErrorMessage Sample.ShellExecutionService_execute
              SampleMore.config_without_registry [] Sample.read_file_request []
              Sample.start [] Sample.start
              (ThrownError {| message := "registry not ready" |}) O
              eq_refl ltac:(simpl; auto 6) (or_introl eq_refl))
    as (text & s' & Hrun & _ & Htext).
  exists s'. rewrite (Htext _ eq_refl) in Hrun. exact Hrun.
Defined.

Lemma shell_failure_is_reported_by_execute_sample :
  exists s',
    SampleMore.execute_without_registry [Sample.ls_request] Sample.start
    = (Ok [ {| res_callId := "123";
               result := "[ERROR] Tool 'run_shell_command' failed: no target directory" |} ],
       s').
Proof.
  destruct (shell_failure_is_reported_by_execute Sample.isBinary
              Sample.getErrorMessage Sample.ShellExecutionService_execute
              SampleMore.config_without_registry [] Sample.ls_request []
              Sample.start [] Sample.start
              (ThrownError {| message := "no target directory" |}) O
              eq_refl eq_refl eq_refl (or_introl eq_refl))
    as (text & s' & Hrun & _ & Htext).
  exists s'. rewrite (Htext _ eq_refl) in Hrun. exact Hrun.
Defined.

Lemma shell_is_called_with_command_and_target_dir_sample :
  Sample.execute [Sample.ls_request] Sample.start
  = (Ok [ {| res_callId := "123"; result := "hello world" |} ],
     {| world := O;
        calls := [CallGetTargetDir; CallShellExecute (JStr "ls") "/tmp"];
        sent := [] |}).
Proof.
  exact (shell_is_called_with_command_and_target_dir Sample.isBinary
           Sample.getErrorMessage Sample.ShellExecutionService_execute
           Sample.config Sample.ls_request Sample.start "/tmp" O Sample.hello O
           eq_refl eq_refl eq_refl eq_refl).
Defined.

Lemma tool_is_built_from_the_request_args_sample :
  exists text,
    Sample.execute [Sample.read_file_request] Sample.start
    = (Ok [ {| res_callId := "111"; result := text |} ],
       {| world := O;
          calls := [CallGetToolRegistry; CallGetTool "read_file";
                    CallBuild "read_file" {[ "path" := JStr "foo.txt" ]};
                    CallExecute "read_file"];
          sent := [] |}).
Proof.
  exact (tool_is_built_from_the_request_args Sample.isBinary
           Sample.getErrorMessage Sample.ShellExecutionService_execute
           Sample.config Sample.read_file_request Sample.start
           Sample.registry O (Sample.tool_returning Sample.two_parts) O
           {| invocation_execute := fun w' =>
                (Ok {| llmContent := Sample.two_parts |}, w') |} O
           {| llmContent := Sample.two_parts |} O
           ltac:(simpl; auto 6) eq_refl eq_refl eq_refl eq_refl).
Defined.

Lemma unknown_tool_makes_no_call_sample :
  snd (Sample.execute [Sample.unknown_request] Sample.start) = Sample.start.
Proof.
  apply (unknown_tool_makes_no_call Sample.isBinary Sample.getErrorMessage
           Sample.ShellExecutionService_execute Sample.config
           Sample.unknown_request Sample.start).
  intros [H|[H|[H|[H|[H|[]]]]]]; discriminate H.
Defined.

Lemma shell_result_is_never_empty_sample :
  exists r s',
    Sample.execute [Sample.no_command_request] Sample.start = (Ok [r], s')
    /\ res_callId r = "9" /\ result r <> "".
Proof.
  destruct (shell_result_is_never_empty Sample.isBinary Sample.getErrorMessage
              Sample.ShellExecutionService_execute Sample.config
              Sample.no_command_request Sample.start eq_refl)
    as [H | (value & s' & _ & Hthrown & _)].
  - exact H.
  - discriminate Hthrown.
Defined.

Lemma blank_output_is_reported_as_no_output_sample :
  shell_result_text Sample.isBinary SampleMore.blank
  = "(Command produced no output)".
Proof.
  destruct (blank_output_is_reported_as_no_output Sample.isBinary SampleMore.blank
              eq_refl eq_refl eq_refl eq_refl eq_refl) as [Hblank _].
  exact (Hblank eq_refl).
Defined.

Lemma processStream_concat_sample :
  exists s2,
    Sample.processStream
      (stream_of_list ([EvToolCallRequest Sample.ls_request]
                       ++ [EvToolCallRequest Sample.read_file_request;
                           EvFinished "STOP"]))
      "id" Sample.start
    = (Ok ([Sample.ls_request] ++ [Sample.read_file_request]), s2).
Proof.
  eexists.
  exact (processStream_concat Sample.JSON_stringify
           [EvToolCallRequest Sample.ls_request]
           [EvToolCallRequest Sample.read_file_request; EvFinished "STOP"]
           "id" Sample.start _ _ _ _ eq_refl eq_refl).
Defined.

Lemma every_result_of_execute_finds_its_request_sample :
  exists toolResults s',
    Sample.execute [Sample.ls_request; SampleMore.twin_request] Sample.start
    = (Ok toolResults, s')
    /\ length (inform_messages [Sample.ls_request; SampleMore.twin_request]
                 toolResults) = 2%nat.
Proof.
  eexists _, _. split; [reflexivity|].
  destruct (every_result_of_execute_finds_its_request Sample.isBinary
              Sample.getErrorMessage Sample.ShellExecutionService_execute
              Sample.config [Sample.ls_request; SampleMore.twin_request]
              Sample.start _ _ eq_refl) as [Hmsgs _].
  apply Forall2_length in Hmsgs. symmetry. exact Hmsgs.
Defined.

Lemma results_are_paired_by_position_sample :
  exists text,
    inform_messages [Sample.ls_request; Sample.read_file_request]
      [ {| res_callId := "123"; result := "hello world" |};
        {| res_callId := "111"; result := text |} ]
    = [ MsgToolResult Sample.ls_request
          {| res_callId := "123"; result := "hello world" |};
        MsgToolResult Sample.read_file_request
          {| res_callId := "111"; result := text |} ].
Proof.
  exists "a,b".
  assert (Hnodup : List.NoDup
            (map callId [Sample.ls_request; Sample.read_file_request])).
  { repeat constructor; simpl; intuition discriminate. }
  destruct (results_are_paired_by_position Sample.isBinary Sample.getErrorMessage
              Sample.ShellExecutionService_execute Sample.config
              [Sample.ls_request; Sample.read_file_request] Sample.start
              _ _ Hnodup eq_refl) as [Hpairs _].
  exact Hpairs.
Defined.

Lemma first_request_with_the_callId_wins_sample :
  inform_messages ([] ++ Sample.ls_request :: [SampleMore.twin_request])
    [ {| res_callId := "123"; result := "tool result" |} ]
  = [ MsgToolResult Sample.ls_request
        {| res_callId := "123"; result := "tool result" |} ].
Proof.
  destruct (first_request_with_the_callId_wins [] Sample.ls_request
              [SampleMore.twin_request]
              {| res_callId := "123"; result := "tool result" |}
              (fun q H => match H with end) eq_refl) as [Hmsg _].
  exact Hmsg.
Defined.

Lemma two_pass_conversation_sample :
  fst (Sample.streamQuery_with Sample.config Sample.mock_execute 2
         Sample.initial_prompt Sample.start) = Returns
  /\ sent (snd (Sample.streamQuery_with Sample.config Sample.mock_execute 2
                  Sample.initial_prompt Sample.start))
     = [ MsgToolCallRequest Sample.ls_request;
         MsgFinished "STOP" "session-id########0.5";
         MsgToolResult Sample.ls_request
           {| res_callId := "123"; result := "tool result" |};
         MsgContent "final answer" ].
Proof.
  pose proof (two_pass_conversation Sample.getErrorMessage Sample.JSON_stringify
                Sample.Math_random Sample.config Sample.mock_execute Sample.client
                Sample.initial_prompt Sample.start
                "session-id" O "0.5" O
                (stream_of_list [EvToolCallRequest Sample.ls_request; EvFinished "STOP"])
                1%nat _ _ "session-id" 1%nat "0.5" 1%nat
                (stream_of_list [EvContent "final answer"]) 2%nat
                eq_refl eq_refl eq_refl eq_refl eq_refl ltac:(discriminate)
                eq_refl eq_refl eq_refl eq_refl eq_refl eq_refl O) as Hrun.
  unfold Sample.streamQuery_with. rewrite Hrun. split; reflexivity.
Defined.

Lemma settings_errors_stop_initialize_sample :
  exists text,
    fst (SampleStartup.initialize SampleStartup.bad_settings
           SampleStartup.config_object SampleStartup.validateAuthMethod
           SampleStartup.start)
    = Throw {| message := "Failed to load settings:" +:+ newline +:+ text |}
    /\ contains "Error in /home/.gemini/settings.json: Unexpected end of input" text.
Proof.
  destruct (settings_errors_stop_initialize SampleStartup.process_cwd
              (fun _ w => (Ok SampleStartup.bad_settings, w))
              SampleStartup.loadExtensions
              (SampleStartup.loadCliConfig SampleStartup.config_object)
              SampleStartup.validateAuthMethod "session-id"
              SampleStartup.start "/work" O SampleStartup.bad_settings O
              eq_refl eq_refl ltac:(discriminate))
    as (text & Hrun & Hlines).
  exists text. split.
  - unfold SampleStartup.initialize. now rewrite Hrun.
  - apply (Hlines {| settings_error_path := "/home/.gemini/settings.json";
                     settings_error_message := "Unexpected end of input" |}).
    simpl. auto.
Defined.

Lemma missing_auth_type_stops_initialize_sample :
  SampleStartup.initialize SampleStartup.anonymous_settings
    SampleStartup.config_object SampleStartup.validateAuthMethod
    SampleStartup.start
  = (Throw {| message :=
       "Authentication not configured. Please run `gemini auth` or `gemini init` to set up your authentication method." |},
     {| startup_world := O;
        startup_calls := [CallCwd; CallLoadSettings "/work"] |}).
Proof.
  exact (missing_auth_type_stops_initialize SampleStartup.process_cwd
           (fun _ w => (Ok SampleStartup.anonymous_settings, w))
           SampleStartup.loadExtensions
           (SampleStartup.loadCliConfig SampleStartup.config_object)
           SampleStartup.validateAuthMethod "session-id"
           SampleStartup.start "/work" O SampleStartup.anonymous_settings O
           eq_refl eq_refl eq_refl (or_introl eq_refl)).
Defined.

Lemma rejected_auth_method_stops_initialize_sample :
  fst (SampleStartup.initialize SampleStartup.good_settings
         SampleStartup.config_object SampleStartup.validateAuthMethod_strict
         SampleStartup.start)
  = Throw {| message :=
      "Authentication failed: GEMINI_API_KEY environment variable not found." |}.
Proof.
  unfold SampleStartup.initialize.
  rewrite (rejected_auth_method_stops_initialize SampleStartup.process_cwd
             (fun _ w => (Ok SampleStartup.good_settings, w))
             SampleStartup.loadExtensions
             (SampleStartup.loadCliConfig SampleStartup.config_object)
             SampleStartup.validateAuthMethod_strict "session-id"
             SampleStartup.start "/work" O SampleStartup.good_settings O
             "oauth-personal" (JArr []) O SampleStartup.config_object O O
             "GEMINI_API_KEY environment variable not found." O
             eq_refl eq_refl eq_refl eq_refl ltac:(discriminate) eq_refl eq_refl
             eq_refl eq_refl ltac:(discriminate)).
  reflexivity.
Defined.

Lemma failed_refresh_stops_initialize_sample :
  fst (SampleStartup.initialize SampleStartup.good_settings
         SampleStartup.config_object_refused SampleStartup.validateAuthMethod
         SampleStartup.start)
  = Throw {| message := "Authentication failed: token expired" |}.
Proof.
  exact (failed_refresh_stops_initialize SampleStartup.process_cwd
           (fun _ w => (Ok SampleStartup.good_settings, w))
           SampleStartup.loadExtensions
           (SampleStartup.loadCliConfig SampleStartup.config_object_refused)
           SampleStartup.validateAuthMethod "session-id"
           SampleStartup.start "/work" O SampleStartup.good_settings O
           "oauth-personal" (JArr []) O SampleStartup.config_object_refused O O
           None O {| message := "token expired" |} O
           eq_refl eq_refl eq_refl eq_refl ltac:(discriminate) eq_refl eq_refl
           eq_refl eq_refl eq_refl eq_refl).
Defined.

Lemma config_failure_is_thrown_unchanged_sample :
  fst (initialize SampleStartup.process_cwd
         (fun _ w => (Ok SampleStartup.good_settings, w))
         SampleStartup.loadExtensions
         (fun _ _ _ _ w => (Throw {| message := "cannot read extensions" |}, w))
         SampleStartup.validateAuthMethod "session-id" SampleStartup.start)
  = Throw {| message := "cannot read extensions" |}.
Proof.
  destruct (config_failure_is_thrown_unchanged SampleStartup.process_cwd
              (fun _ w => (Ok SampleStartup.good_settings, w))
              SampleStartup.loadExtensions
              (fun _ _ _ _ w => (Throw {| message := "cannot read extensions" |}, w))
              SampleStartup.validateAuthMethod "session-id"
              SampleStartup.start "/work" O SampleStartup.good_settings O
              "oauth-personal" (JArr []) O
              {| message := "cannot read extensions" |} O
              eq_refl eq_refl eq_refl eq_refl ltac:(discriminate) eq_refl
              (or_introl eq_refl)) as [Hthrown _].
  exact Hthrown.
Defined.

Lemma initialize_returns_a_ready_config_sample :
  getGeminiClient (as_Config SampleStartup.config_object) <> None.
Proof.
  destruct (initialize_returns_a_ready_config SampleStartup.process_cwd
              (fun _ w => (Ok SampleStartup.good_settings, w))
              SampleStartup.loadExtensions
              (SampleStartup.loadCliConfig SampleStartup.config_object)
              SampleStartup.validateAuthMethod "session-id"
              SampleStartup.start SampleStartup.config_object _ eq_refl)
    as [Hclient _].
  exact Hclient.
Defined.

Lemma callback_failure_stops_the_stream_sample :
  processStream Sample.JSON_stringify Sample.throwing
    (stream_of_list [EvContent "one"; EvContent "two"]) "id" Sample.start
  = (Throw {| message := "callback failed" |},
     {| world := O; calls := []; sent := [MsgContent "one"] |}).
Proof.
  exact (callback_failure_stops_the_stream Sample.JSON_stringify Sample.throwing
           (EvContent "one") (stream_of_list [EvContent "two"]) "id" Sample.start
           (MsgContent "one") (ThrownError {| message := "callback failed" |}) O
           eq_refl eq_refl).
Defined.

Lemma runGeminiCli_reports_the_prompt_sample :
  runGeminiCli "test prompt" []
  = [ "Running Gemini CLI with prompt: " +:+ quote +:+ "test prompt" +:+ quote;
      "This is a placeholder response from the Gemini CLI." ]
  /\ "test prompt" = "test prompt".
Proof.
  destruct (runGeminiCli_reports_the_prompt "test prompt" "test prompt" [])
    as [_ Hinj].
  split; [reflexivity | exact (Hinj eq_refl)].
Defined.
